(** * A TI-84 style calculator: expression engine and graphing state

    Shallow embedding of [ti84_engine.py] (class [TI84Engine]), of the
    state-handling part of [graphing_engine.py] (class [GraphingEngine])
    and of the key handlers of [ui.py] (class [CalculatorUI]), together
    with the pieces of the Python runtime they call: [str.strip],
    [str.replace], [re.sub] for the factorial pattern, [eval] on an
    arithmetic fragment of Python expressions, binary64 floats, [int],
    [float], [str] and the [.10g] format. *)

From Stdlib Require Import ZArith NArith Lia Bool List Ascii String.
From Stdlib Require Import Floats.SpecFloat.
From Stdlib Require Import QArith Qpower Qabs Lqa.
From Stdlib Require DecimalFacts DecimalPos DecimalN.
From stdpp Require Import base option list gmap.

Open Scope Z_scope.

Set Warnings "-register-all".

(** ** Python strings

    A Python [str] is a sequence of Unicode code points.  The regular
    expression of [prepare_expression] asks the interpreter's Unicode
    database whether a character is alphanumeric ([\w], [\b]) or a decimal
    digit ([\d]); for code points below 128 the answer is fixed, for the
    others it depends on the database, so a character carries it. *)

Inductive uni_class :=
| UDecimal   (* a decimal digit: matched by \d and by \w *)
| UAlnum     (* any other alphanumeric character: matched by \w only *)
| UOther.    (* neither *)

Record char := Char { code : N; uni : uni_class }.

Abbreviation str := (list char).

Definition code_eqb (a b : char) : bool := (code a =? code b)%N.

(** The characters of the literals used below: ASCII, the three operator
    glyphs (symbols), the Greek letter pi and the script small e (letters). *)
Definition known_class (c : N) : uni_class :=
  if (c =? 960)%N || (c =? 8495)%N then UAlnum else UOther.

Definition chr (c : N) : char := Char c (known_class c).

(** UTF-8 decoding of a Rocq string literal into code points. *)
Fixpoint utf8_decode (need : nat) (acc : N) (bs : list N) : list N :=
  match bs with
  | [] => []
  | b :: rest =>
      match need with
      | S O => (acc * 64 + N.land b 63)%N :: utf8_decode O 0%N rest
      | S n => utf8_decode n (acc * 64 + N.land b 63)%N rest
      | O =>
          if (b <? 128)%N then b :: utf8_decode O 0%N rest
          else if (b <? 224)%N then utf8_decode 1 (N.land b 31) rest
          else if (b <? 240)%N then utf8_decode 2 (N.land b 15) rest
          else utf8_decode 3 (N.land b 7) rest
      end
  end.

Definition py (s : string) : str :=
  List.map chr (utf8_decode O 0%N (List.map N_of_ascii (list_ascii_of_string s))).

(** [str.isspace] as [str.strip] uses it. *)
Definition isspace (c : char) : bool :=
  let n := code c in
  ((9 <=? n) && (n <=? 13) || (28 <=? n) && (n <=? 32) || (n =? 133) || (n =? 160)
   || (n =? 5760) || (8192 <=? n) && (n <=? 8202) || (n =? 8232) || (n =? 8233)
   || (n =? 8239) || (n =? 8287) || (n =? 12288))%N.

Fixpoint lstrip (s : str) : str :=
  match s with
  | c :: s' => if isspace c then lstrip s' else s
  | [] => []
  end.

(** [s.strip()] *)
Definition strip (s : str) : str := rev (lstrip (rev (lstrip s))).

(** [s.startswith(p)], comparing code points. *)
Fixpoint startswith (p s : str) : bool :=
  match p, s with
  | [], _ => true
  | a :: p', b :: s' => code_eqb a b && startswith p' s'
  | _ :: _, [] => false
  end.

(** [s.replace(old, new)] for a non-empty [old]: the occurrences of [old]
    are found from the left and do not overlap.  [skip] counts the characters
    of an occurrence that are still to be passed over. *)
Fixpoint replace_from (old new : str) (skip : nat) (s : str) : str :=
  match s with
  | [] => []
  | c :: s' =>
      match skip with
      | S n => replace_from old new n s'
      | O =>
          if startswith old s
          then new ++ replace_from old new (length old - 1) s'
          else c :: replace_from old new O s'
      end
  end.

Definition replace (old new s : str) : str := replace_from old new O s.

(** ** The regular expression of the factorial rewriting *)

Definition is_ascii (c : char) : bool := (code c <? 128)%N.

Definition in_range (lo hi : N) (c : char) : bool :=
  ((lo <=? code c) && (code c <=? hi))%N.

(** [\d] *)
Definition re_digit (c : char) : bool :=
  if is_ascii c then in_range 48 57 c
  else match uni c with UDecimal => true | _ => false end.

(** [\w] *)
Definition re_word (c : char) : bool :=
  if is_ascii c
  then in_range 48 57 c || in_range 65 90 c || in_range 97 122 c || (code c =? 95)%N
  else match uni c with UOther => false | _ => true end.

(** [[a-zA-Z_]] *)
Definition re_ident_start (c : char) : bool :=
  in_range 97 122 c || in_range 65 90 c || (code c =? 95)%N.

(** [[^()]] *)
Definition re_not_paren (c : char) : bool :=
  negb ((code c =? 40)%N || (code c =? 41)%N).

Inductive regex :=
| Lit (c : N)                  (* one given character *)
| Class (p : char -> bool)     (* one character of a class *)
| Boundary                     (* \b *)
| Star (p : char -> bool)      (* c*, greedy, for a class c *)
| Cat (r1 r2 : regex)
| Alt (r1 r2 : regex)          (* r1|r2, r1 tried first *)
| Opt (r : regex).             (* r?, greedy *)

Definition word_at (c : option char) : bool :=
  match c with Some x => re_word x | None => false end.

(** Backtracking matcher in continuation-passing style: [prev] is the
    character before the current position, [k] matches what follows the
    expression and is tried again after each failure. *)
Fixpoint star_match {A} (p : char -> bool) (prev : option char) (s : str)
    (k : option char -> str -> option A) : option A :=
  match s with
  | c :: s' =>
      if p c
      then match star_match p (Some c) s' k with
           | Some r => Some r
           | None => k prev s
           end
      else k prev s
  | [] => k prev []
  end.

Fixpoint rmatch {A} (r : regex) (prev : option char) (s : str)
    (k : option char -> str -> option A) : option A :=
  match r with
  | Lit c =>
      match s with
      | x :: s' => if (code x =? c)%N then k (Some x) s' else None
      | [] => None
      end
  | Class p =>
      match s with
      | x :: s' => if p x then k (Some x) s' else None
      | [] => None
      end
  | Boundary =>
      if xorb (word_at prev) (word_at (head s)) then k prev s else None
  | Star p => star_match p prev s k
  | Cat r1 r2 => rmatch r1 prev s (fun prev' s' => rmatch r2 prev' s' k)
  | Alt r1 r2 =>
      match rmatch r1 prev s k with
      | Some x => Some x
      | None => rmatch r2 prev s k
      end
  | Opt r' =>
      match rmatch r' prev s k with
      | Some x => Some x
      | None => k prev s
      end
  end.

(** [(?:\([^()]*\)|\b[a-zA-Z_]\w*\b|\d+(?:\.\d+)?)], the group [target]. *)
Definition factorial_target : regex :=
  Alt (Cat (Lit 40) (Cat (Star re_not_paren) (Lit 41)))
 (Alt (Cat Boundary (Cat (Class re_ident_start) (Cat (Star re_word) Boundary)))
      (Cat (Class re_digit) (Cat (Star re_digit)
         (Opt (Cat (Lit 46) (Cat (Class re_digit) (Star re_digit))))))).

(** The [!] that closes the pattern: on success, the input left after the
    group and the input left after the whole match. *)
Definition bang (_ : option char) (s : str) : option (str * str) :=
  match s with
  | x :: s' => if (code x =? 33)%N then Some (s, s') else None
  | [] => None
  end.

(** [f"math.factorial(int({m.group('target')}))"] *)
Definition factorial_call (target : str) : str :=
  py "math.factorial(int(" ++ target ++ py "))".

(** [re.sub(pattern, repl, expr)]: matches are looked for from the left,
    each one starting where the previous one ended. *)
Fixpoint sub_from (prev : option char) (skip : nat) (s : str) : str :=
  match s with
  | [] => []
  | c :: s' =>
      match skip with
      | S n => sub_from (Some c) n s'
      | O =>
          match rmatch factorial_target prev s bang with
          | Some (after_group, after_match) =>
              factorial_call (take (length s - length after_group) s)
              ++ sub_from (Some c) (length s - length after_match - 1) s'
          | None => c :: sub_from (Some c) O s'
          end
      end
  end.

Definition sub_factorial (s : str) : str := sub_from None O s.

(** ** Outcomes of Python code

    A call returns a value or raises.  [Stuck] marks an input on which this
    development does not say what Python does (syntax outside the modelled
    fragment, results of the C library's transcendental functions); it is
    not an outcome of the program and nothing is concluded from it. *)

Inductive exn :=
| TI84Error (msg : str)
| NameError
| ZeroDivisionError
| ValueError
| OverflowError
| TypeError
| SyntaxError
| SystemExit.

(** [isinstance(exc, Exception)]: [SystemExit] derives from [BaseException]
    only, the others (and [TI84Error], by its class statement) from
    [Exception]. *)
Definition is_Exception (exc : exn) : bool :=
  match exc with
  | SystemExit => false
  | _ => true
  end.

Inductive outcome (A : Type) :=
| Ret (a : A)
| Raise (e : exn)
| Stuck.

Arguments Ret {A} a.
Arguments Raise {A} e.
Arguments Stuck {A}.

#[global] Instance outcome_bind : MBind outcome := fun A B f m =>
  match m with
  | Ret a => f a
  | Raise e => Raise e
  | Stuck => Stuck
  end.

(** ** Binary64 floats and Python numbers *)

Abbreviation float := spec_float.

Definition fadd : float -> float -> float := SFadd 53 1024.
Definition fsub : float -> float -> float := SFsub 53 1024.
Definition fmul : float -> float -> float := SFmul 53 1024.
Definition fdiv : float -> float -> float := SFdiv 53 1024.
Definition fsqrt : float -> float := SFsqrt 53 1024.
Definition flt : float -> float -> bool := SFltb.
Definition fle : float -> float -> bool := SFleb.
Definition fabs : float -> float := SFabs.
Definition fneg : float -> float := SFopp.
Definition fzero : float := S754_zero false.
Definition nan : float := S754_nan.

(** The float nearest to an integer (ties to even); infinite when the
    integer is out of range. *)
Definition float_of_Z (n : Z) : float := binary_normalize 53 1024 n 0 false.

(** [float(n)] for an [int] *)
Definition int_to_float (n : Z) : outcome float :=
  match float_of_Z n with
  | S754_infinity _ => Raise OverflowError
  | f => Ret f
  end.

(** The float a decimal literal [m / 10^k] denotes, when [m] and [10^k] are
    floats themselves (the quotient is then rounded once, as the literal is). *)
Definition float_of_decimal (m : Z) (k : nat) : option float :=
  if (m <? 2 ^ 53) && (Nat.leb k 22)
  then Some (fdiv (float_of_Z m) (float_of_Z (10 ^ Z.of_nat k)))
  else None.

(** [int(x)] for a float: truncation towards zero. *)
Definition py_int (x : float) : outcome Z :=
  match x with
  | S754_zero _ => Ret 0
  | S754_nan => Raise ValueError
  | S754_infinity _ => Raise OverflowError
  | S754_finite s m e =>
      let a := if 0 <=? e then Z.pos m * 2 ^ e else Z.pos m / 2 ^ (- e) in
      Ret (if s then - a else a)
  end.

(** [x == n] for a float and an [int]: the two numbers are compared exactly. *)
Definition float_eq_int (x : float) (n : Z) : bool :=
  match x with
  | S754_zero _ => n =? 0
  | S754_finite s m e =>
      let a := if s then Z.neg m else Z.pos m in
      if 0 <=? e then a * 2 ^ e =? n else a =? n * 2 ^ (- e)
  | _ => false
  end.

(** ** Python values and the restricted namespace *)

(** The callables [__post_init__] puts into [_functions]. *)
Inductive builtin :=
| math_sin | math_cos | math_tan | math_asin | math_acos | math_atan
| math_log10 | math_sqrt | math_factorial | math_fabs | math_exp | math_log
| builtin_abs | builtin_pow.

Inductive pyvalue :=
| VInt (n : Z)
| VFloat (x : float)
| VBuiltin (f : builtin)
| VMath                       (* the module [math] *)
| VBuiltins                   (* the module [builtins] *)
| VQuitter.                   (* [exit] and [quit], which [site] adds to [builtins] *)

(** A name as a dictionary key: its code points. *)
Definition key_of (s : str) : list N := List.map code s.
Definition key (s : string) : list N := key_of (py s).

Definition math_pi : float := S754_finite false 7074237752028440 (-51).
Definition math_e : float := S754_finite false 6121026514868073 (-51).

(** [self._functions] *)
Definition _functions : list (list N * pyvalue) :=
  [ (key "sin", VBuiltin math_sin); (key "cos", VBuiltin math_cos);
    (key "tan", VBuiltin math_tan); (key "asin", VBuiltin math_asin);
    (key "acos", VBuiltin math_acos); (key "atan", VBuiltin math_atan);
    (key "log10", VBuiltin math_log10); (key "sqrt", VBuiltin math_sqrt);
    (key "factorial", VBuiltin math_factorial); (key "fabs", VBuiltin math_fabs);
    (key "exp", VBuiltin math_exp);
    (key "ln", VBuiltin math_log); (key "log", VBuiltin math_log10);
    (key "abs", VBuiltin builtin_abs); (key "pow", VBuiltin builtin_pow) ].

(** [self._constants] *)
Definition _constants : list (list N * pyvalue) :=
  [ (key "pi", VFloat math_pi); (key "π", VFloat math_pi); (key "e", VFloat math_e) ].

(** [d.update(items)]: a later item replaces an earlier one. *)
Definition dict_update {V} (d : gmap (list N) V) (items : list (list N * V)) : gmap (list N) V :=
  fold_left (fun m kv => <[kv.1 := kv.2]> m) items d.

(** ** [eval] on an arithmetic fragment of Python expressions *)

Inductive token :=
| TInt (n : Z) | TFloat (x : float) | TName (s : str)
| TPlus | TMinus | TStar | TSlash | TPow | TLPar | TRPar | TComma | TDot.

Inductive lex_state :=
| LIdle
| LName (rev_name : str)
| LInt (leading_zero : bool) (ndigits : nat) (v : Z)
| LFrac (m : Z) (k : nat)     (* the digits read so far, [k] of them after the point *)
| LDot
| LStar.

Definition is_digit (c : char) : bool := in_range 48 57 c.
Definition digit_val (c : char) : Z := Z.of_N (code c) - 48.

(** The characters of the identifiers the fragment has: ASCII ones, pi and
    the script small e. *)
Definition name_start (c : char) : bool :=
  re_ident_start c || (code c =? 960)%N || (code c =? 8495)%N.
Definition name_char (c : char) : bool := name_start c || is_digit c.

(** Python reads an identifier in the normal form NFKC: of the characters
    above, the script small e becomes the letter [e], the others stay. *)
Definition nfkc (s : str) : str :=
  List.map (fun c => if (code c =? 8495)%N then chr 101 else c) s.

(** The longest integer literal CPython converts. *)
Definition max_str_digits : nat := 4300.

Definition keywords : list string :=
  [ "False"; "None"; "True"; "and"; "as"; "assert"; "async"; "await"; "break";
    "class"; "continue"; "def"; "del"; "elif"; "else"; "except"; "finally";
    "for"; "from"; "global"; "if"; "import"; "in"; "is"; "lambda"; "nonlocal";
    "not"; "or"; "pass"; "raise"; "return"; "try"; "while"; "with"; "yield";
    "__debug__"; "__builtins__" ]%string.

(** Names the fragment leaves out: keywords, and the two names that Python
    resolves without the namespace. *)
Definition reserved (k : list N) : bool :=
  existsb (fun w => bool_decide (key w = k)) keywords.

(** The token a state stands for when the input moves on. *)
Definition lex_flush (st : lex_state) : option (list token) :=
  match st with
  | LIdle => Some []
  | LName r => let s := nfkc (rev r) in if reserved (key_of s) then None else Some [TName s]
  | LInt z n v =>
      if (z && Nat.ltb 1 n) || Nat.ltb max_str_digits n then None else Some [TInt v]
  | LFrac m k => x ← float_of_decimal m k; Some [TFloat x]
  | LDot => Some [TDot]
  | LStar => Some [TStar]
  end.

Definition lex_idle (c : char) : option (lex_state * list token) :=
  let n := code c in
  if is_digit c then Some (LInt (n =? 48)%N 1 (digit_val c), [])
  else if name_start c then Some (LName [c], [])
  else if (n =? 46)%N then Some (LDot, [])
  else if (n =? 42)%N then Some (LStar, [])
  else if (n =? 43)%N then Some (LIdle, [TPlus])
  else if (n =? 45)%N then Some (LIdle, [TMinus])
  else if (n =? 47)%N then Some (LIdle, [TSlash])
  else if (n =? 40)%N then Some (LIdle, [TLPar])
  else if (n =? 41)%N then Some (LIdle, [TRPar])
  else if (n =? 44)%N then Some (LIdle, [TComma])
  else if (n =? 32)%N || (n =? 9)%N then Some (LIdle, [])
  else None.

(** One character: the next state and the tokens completed by it. *)
Definition lex_step (st : lex_state) (c : char) : option (lex_state * list token) :=
  let flush_then :=
    ts ← lex_flush st; '(st', ts') ← lex_idle c; Some (st', ts ++ ts') in
  match st with
  | LIdle => lex_idle c
  | LName r => if name_char c then Some (LName (c :: r), []) else flush_then
  | LInt z n v =>
      if is_digit c then Some (LInt z (S n) (10 * v + digit_val c), [])
      else if (code c =? 46)%N then Some (LFrac v 0, [])
      else if name_start c then None
      else flush_then
  | LFrac m k =>
      if is_digit c then Some (LFrac (10 * m + digit_val c) (S k), [])
      else if name_start c || (code c =? 46)%N then None
      else flush_then
  | LDot => if is_digit c then Some (LFrac (digit_val c) 1, []) else flush_then
  | LStar => if (code c =? 42)%N then Some (LIdle, [TPow]) else flush_then
  end.

Fixpoint lex (st : lex_state) (s : str) : option (list token) :=
  match s with
  | [] => lex_flush st
  | c :: s' => '(st', ts) ← lex_step st c; rest ← lex st' s'; Some (ts ++ rest)
  end.

Inductive binop := Add | Sub | Mul | Div | Pow.

Inductive expr :=
| ENum (n : Z)
| EFloat (x : float)
| EName (s : str)
| EAttr (e : expr) (a : str)
| ECall (f : expr) (args : list expr)
| ENeg (e : expr)
| EPos (e : expr)
| EBin (op : binop) (e1 e2 : expr).

(** Recursive descent over Python's grammar for sums, terms, factors,
    powers and primaries; [n] bounds the depth of the descent. *)
Fixpoint p_sum (n : nat) (ts : list token) : option (expr * list token) :=
  match n with
  | O => None
  | S n => '(e, r) ← p_term n ts; p_sum_tail n e r
  end
with p_sum_tail (n : nat) (e : expr) (ts : list token) : option (expr * list token) :=
  match n with
  | O => None
  | S n =>
      match ts with
      | TPlus :: r => '(e2, r2) ← p_term n r; p_sum_tail n (EBin Add e e2) r2
      | TMinus :: r => '(e2, r2) ← p_term n r; p_sum_tail n (EBin Sub e e2) r2
      | _ => Some (e, ts)
      end
  end
with p_term (n : nat) (ts : list token) : option (expr * list token) :=
  match n with
  | O => None
  | S n => '(e, r) ← p_factor n ts; p_term_tail n e r
  end
with p_term_tail (n : nat) (e : expr) (ts : list token) : option (expr * list token) :=
  match n with
  | O => None
  | S n =>
      match ts with
      | TStar :: r => '(e2, r2) ← p_factor n r; p_term_tail n (EBin Mul e e2) r2
      | TSlash :: r => '(e2, r2) ← p_factor n r; p_term_tail n (EBin Div e e2) r2
      | _ => Some (e, ts)
      end
  end
with p_factor (n : nat) (ts : list token) : option (expr * list token) :=
  match n with
  | O => None
  | S n =>
      match ts with
      | TMinus :: r => '(e, r2) ← p_factor n r; Some (ENeg e, r2)
      | TPlus :: r => '(e, r2) ← p_factor n r; Some (EPos e, r2)
      | _ =>
          '(e, r) ← p_primary n ts;
          match r with
          | TPow :: r2 => '(e2, r3) ← p_factor n r2; Some (EBin Pow e e2, r3)
          | _ => Some (e, r)
          end
      end
  end
with p_primary (n : nat) (ts : list token) : option (expr * list token) :=
  match n with
  | O => None
  | S n =>
      match ts with
      | TInt z :: r => p_trailers n (ENum z) r
      | TFloat x :: r => p_trailers n (EFloat x) r
      | TName s :: r => p_trailers n (EName s) r
      | TLPar :: r =>
          '(e, r2) ← p_sum n r;
          match r2 with
          | TRPar :: r3 => p_trailers n e r3
          | _ => None
          end
      | _ => None
      end
  end
with p_trailers (n : nat) (e : expr) (ts : list token) : option (expr * list token) :=
  match n with
  | O => None
  | S n =>
      match ts with
      | TLPar :: TRPar :: r => p_trailers n (ECall e []) r
      | TLPar :: r => '(args, r2) ← p_args n r; p_trailers n (ECall e args) r2
      | TDot :: TName a :: r => p_trailers n (EAttr e a) r
      | _ => Some (e, ts)
      end
  end
with p_args (n : nat) (ts : list token) : option (list expr * list token) :=
  match n with
  | O => None
  | S n =>
      '(e, r) ← p_sum n ts;
      match r with
      | TComma :: r2 => '(es, r3) ← p_args n r2; Some (e :: es, r3)
      | TRPar :: r2 => Some ([e], r2)
      | _ => None
      end
  end.

(** CPython bounds the nesting of an expression: 200 open parentheses, and
    some thousand levels of operators, calls and attributes, depending on
    the version and on the depth of the call stack.  The fragment stops well
    short of these bounds. *)
Definition max_tokens : nat := 64.

(** The tokens of a text of the fragment. *)
Definition tokens (s : str) : option (list token) :=
  ts ← lex LIdle s;
  if Nat.ltb max_tokens (length ts) then None else Some ts.

(** The expression a text denotes, when it lies in the fragment. *)
Definition parse (s : str) : option expr :=
  ts ← tokens s;
  '(e, r) ← p_sum (8 * S (length ts)) ts;
  match r with [] => Some e | _ => None end.

(** Texts that are no Python expression, whatever the fragment leaves out:
    the last token is an arithmetic operator or an opening parenthesis, or
    the parentheses do not match. *)
Definition ends_open (ts : list token) : bool :=
  match last ts with
  | Some (TPlus | TMinus | TStar | TSlash | TPow | TLPar) => true
  | _ => false
  end.

Fixpoint balanced (depth : nat) (ts : list token) : bool :=
  match ts with
  | [] => Nat.eqb depth 0
  | TLPar :: r => balanced (S depth) r
  | TRPar :: r => match depth with S d => balanced d r | O => false end
  | _ :: r => balanced depth r
  end.

Definition syntax_error (ts : list token) : bool :=
  ends_open ts || negb (balanced 0 ts).

(** The attributes of [math] the fragment has. *)
Definition math_attr (a : list N) : outcome pyvalue :=
  if bool_decide (a = key "factorial") then Ret (VBuiltin math_factorial)
  else if bool_decide (a = key "sqrt") then Ret (VBuiltin math_sqrt)
  else if bool_decide (a = key "fabs") then Ret (VBuiltin math_fabs)
  else if bool_decide (a = key "sin") then Ret (VBuiltin math_sin)
  else if bool_decide (a = key "cos") then Ret (VBuiltin math_cos)
  else if bool_decide (a = key "tan") then Ret (VBuiltin math_tan)
  else if bool_decide (a = key "asin") then Ret (VBuiltin math_asin)
  else if bool_decide (a = key "acos") then Ret (VBuiltin math_acos)
  else if bool_decide (a = key "atan") then Ret (VBuiltin math_atan)
  else if bool_decide (a = key "exp") then Ret (VBuiltin math_exp)
  else if bool_decide (a = key "log") then Ret (VBuiltin math_log)
  else if bool_decide (a = key "log10") then Ret (VBuiltin math_log10)
  else if bool_decide (a = key "pi") then Ret (VFloat math_pi)
  else if bool_decide (a = key "e") then Ret (VFloat math_e)
  else Stuck.

(** [f.__self__] for a function of the namespace: the module it comes from. *)
Definition builtin_self (f : builtin) : pyvalue :=
  match f with
  | builtin_abs | builtin_pow => VBuiltins
  | _ => VMath
  end.

(** The attributes of [builtins] the fragment has. *)
Definition builtins_attr (a : list N) : outcome pyvalue :=
  if bool_decide (a = key "abs") then Ret (VBuiltin builtin_abs)
  else if bool_decide (a = key "pow") then Ret (VBuiltin builtin_pow)
  else if bool_decide (a = key "exit") || bool_decide (a = key "quit") then Ret VQuitter
  else Stuck.

(** [v.a] *)
Definition py_getattr (v : pyvalue) (a : list N) : outcome pyvalue :=
  match v with
  | VMath => math_attr a
  | VBuiltins => builtins_attr a
  | VBuiltin f => if bool_decide (a = key "__self__") then Ret (builtin_self f) else Stuck
  | _ => Stuck
  end.

(** [float(v)] *)
Definition py_float (v : pyvalue) : outcome float :=
  match v with
  | VInt n => int_to_float n
  | VFloat x => Ret x
  | VBuiltin _ | VMath | VBuiltins | VQuitter => Raise TypeError
  end.

Definition is_zero (x : float) : bool :=
  match x with S754_zero _ => true | _ => false end.

(** [a ** b] for two [int]s. *)
Definition int_pow (a b : Z) : outcome pyvalue :=
  if 0 <=? b then Ret (VInt (a ^ b))
  else if a =? 0 then Raise ZeroDivisionError
  else Stuck.

(** The arithmetic operators. An [int] meeting a [float] is converted. *)
Definition binop_apply (op : binop) (v1 v2 : pyvalue) : outcome pyvalue :=
  match v1, v2 with
  | VInt a, VInt b =>
      match op with
      | Add => Ret (VInt (a + b))
      | Sub => Ret (VInt (a - b))
      | Mul => Ret (VInt (a * b))
      | Div =>
          if b =? 0 then Raise ZeroDivisionError
          else if (Z.abs a <=? 2 ^ 53) && (Z.abs b <=? 2 ^ 53)
               then Ret (VFloat (fdiv (float_of_Z a) (float_of_Z b)))
               else Stuck
      | Pow => int_pow a b
      end
  | VInt _, VFloat _ | VFloat _, VInt _ | VFloat _, VFloat _ =>
      x ← py_float v1; y ← py_float v2;
      match op with
      | Add => Ret (VFloat (fadd x y))
      | Sub => Ret (VFloat (fsub x y))
      | Mul => Ret (VFloat (fmul x y))
      | Div => if is_zero y then Raise ZeroDivisionError else Ret (VFloat (fdiv x y))
      | Pow => Stuck
      end
  | _, _ => Raise TypeError
  end.

Definition neg_apply (v : pyvalue) : outcome pyvalue :=
  match v with
  | VInt n => Ret (VInt (- n))
  | VFloat x => Ret (VFloat (fneg x))
  | _ => Raise TypeError
  end.

Definition pos_apply (v : pyvalue) : outcome pyvalue :=
  match v with
  | VInt _ | VFloat _ => Ret v
  | _ => Raise TypeError
  end.

Definition factorial (n : Z) : Z :=
  Z.of_nat (fact (Z.to_nat n)).

(** The functions of the C library: a wrong argument is rejected as Python
    does, the numeric result is left open. *)
Definition libm_call (args : list pyvalue) : outcome pyvalue :=
  match args with
  | [VInt _] | [VFloat _] => Stuck
  | _ => Raise TypeError
  end.

(** Calling a function of the namespace. *)
Definition call_builtin (f : builtin) (args : list pyvalue) : outcome pyvalue :=
  match f with
  | math_factorial =>
      match args with
      | [VInt n] => if n <? 0 then Raise ValueError else Ret (VInt (factorial n))
      | [VFloat _] => Stuck
      | _ => Raise TypeError
      end
  | math_sqrt =>
      match args with
      | [v] => x ← py_float v;
               if flt x fzero then Raise ValueError else Ret (VFloat (fsqrt x))
      | _ => Raise TypeError
      end
  | math_fabs =>
      match args with
      | [v] => x ← py_float v; Ret (VFloat (fabs x))
      | _ => Raise TypeError
      end
  | builtin_abs =>
      match args with
      | [VInt n] => Ret (VInt (Z.abs n))
      | [VFloat x] => Ret (VFloat (fabs x))
      | _ => Raise TypeError
      end
  | builtin_pow =>
      match args with
      | [a; b] => binop_apply Pow a b
      | [_; _; _] => Stuck
      | _ => Raise TypeError
      end
  | math_log10 =>
      match args with
      | [VInt n] => if n <=? 0 then Raise ValueError else Stuck
      | [VFloat x] => if fle x fzero then Raise ValueError else Stuck
      | _ => Raise TypeError
      end
  | math_log =>
      match args with
      | [VInt n] => if n <=? 0 then Raise ValueError else Stuck
      | [VFloat x] => if fle x fzero then Raise ValueError else Stuck
      | [_; _] => Stuck     (* the logarithm to a given base *)
      | _ => Raise TypeError
      end
  | _ => libm_call args
  end.

(** [exit(code)] of [site]: it closes the standard input and raises. *)
Definition call_quitter (args : list pyvalue) : outcome pyvalue :=
  match args with
  | [] | [_] => Raise SystemExit
  | _ => Raise TypeError
  end.

Definition call_value (f : pyvalue) (args : list pyvalue) : outcome pyvalue :=
  match f with
  | VBuiltin b => call_builtin b args
  | VQuitter => call_quitter args
  | _ => Raise TypeError
  end.

(** Evaluation, operands from left to right. *)
Fixpoint eval_expr (ns : gmap (list N) pyvalue) (e : expr) : outcome pyvalue :=
  match e with
  | ENum n => Ret (VInt n)
  | EFloat x => Ret (VFloat x)
  | EName s =>
      match ns !! key_of s with
      | Some v => Ret v
      | None => Raise NameError
      end
  | EAttr e' a => v ← eval_expr ns e'; py_getattr v (key_of a)
  | ECall f args =>
      fv ← eval_expr ns f;
      vs ← (fix eval_args (es : list expr) : outcome (list pyvalue) :=
              match es with
              | [] => Ret []
              | e1 :: es' => v ← eval_expr ns e1; vs ← eval_args es'; Ret (v :: vs)
              end) args;
      call_value fv vs
  | ENeg e' => v ← eval_expr ns e'; neg_apply v
  | EPos e' => v ← eval_expr ns e'; pos_apply v
  | EBin op e1 e2 => v1 ← eval_expr ns e1; v2 ← eval_expr ns e2; binop_apply op v1 v2
  end.

(** [eval(expression, {"__builtins__": {}}, allowed_names)]: a name is
    looked up in [allowed_names] alone. *)
Definition py_eval (expression : str) (allowed_names : gmap (list N) pyvalue) : outcome pyvalue :=
  match parse expression with
  | Some e => eval_expr allowed_names e
  | None =>
      match tokens expression with
      | Some ts => if syntax_error ts then Raise SyntaxError else Stuck
      | None => Stuck
      end
  end.

(** ** Rendering numbers *)

Fixpoint uint_str (d : Decimal.uint) : str :=
  match d with
  | Decimal.Nil => []
  | Decimal.D0 d => chr 48 :: uint_str d
  | Decimal.D1 d => chr 49 :: uint_str d
  | Decimal.D2 d => chr 50 :: uint_str d
  | Decimal.D3 d => chr 51 :: uint_str d
  | Decimal.D4 d => chr 52 :: uint_str d
  | Decimal.D5 d => chr 53 :: uint_str d
  | Decimal.D6 d => chr 54 :: uint_str d
  | Decimal.D7 d => chr 55 :: uint_str d
  | Decimal.D8 d => chr 56 :: uint_str d
  | Decimal.D9 d => chr 57 :: uint_str d
  end.

(** The decimal digits of a natural number. *)
Definition digits (n : Z) : str := uint_str (N.to_uint (Z.to_N n)).

(** [str(n)] for an [int] *)
Definition str_of_int (n : Z) : str :=
  if n <? 0 then py "-" ++ digits (- n) else digits n.

Fixpoint lstrip_zeros (s : str) : str :=
  match s with
  | c :: s' => if (code c =? 48)%N then lstrip_zeros s' else s
  | [] => []
  end.

Definition rstrip_zeros (s : str) : str := rev (lstrip_zeros (rev s)).

(** The decimal exponent of a positive rational [num/den]:
    [10^X <= num/den < 10^(X+1)]. *)
Definition decimal_exponent (num den : Z) : Z :=
  if den <=? num then Z.of_nat (length (digits (num / den))) - 1
  else
    let k := Z.of_nat (length (digits den)) - Z.of_nat (length (digits num)) in
    if den <=? num * 10 ^ k then - k else - (k + 1).

(** [num/den] rounded to an integer, ties to even. *)
Definition round_half_even (num den : Z) : Z :=
  let q := num / den in
  let r := num mod den in
  match 2 * r ?= den with
  | Lt => q
  | Gt => q + 1
  | Eq => if Z.even q then q else q + 1
  end.

(** The ten significant digits of [num/den] and its decimal exponent. *)
Definition ten_digits (num den : Z) : Z * Z :=
  let X := decimal_exponent num den in
  let d := if X <=? 9 then round_half_even (num * 10 ^ (9 - X)) den
           else round_half_even num (den * 10 ^ (X - 9)) in
  if d =? 10 ^ 10 then (10 ^ 9, X + 1) else (d, X).

Definition exponent_str (X : Z) : str :=
  let a := digits (Z.abs X) in
  py (if X <? 0 then "e-" else "e+")
  ++ (if Nat.ltb (length a) 2 then py "0" ++ a else a).

Definition with_fraction (int_part frac : str) : str :=
  match frac with
  | [] => int_part
  | _ => int_part ++ py "." ++ frac
  end.

(** [f"{x:.10g}"] *)
Definition format_10g (x : float) : str :=
  match x with
  | S754_nan => py "nan"
  | S754_infinity s => py (if s then "-inf" else "inf")
  | S754_zero s => py (if s then "-0" else "0")
  | S754_finite s m e =>
      let num := if 0 <=? e then Z.pos m * 2 ^ e else Z.pos m in
      let den := if 0 <=? e then 1 else 2 ^ (- e) in
      let '(d, X) := ten_digits num den in
      let ds := digits d in
      let body :=
        if (X <? -4) || (10 <=? X)
        then with_fraction (take 1 ds) (rstrip_zeros (drop 1 ds)) ++ exponent_str X
        else if 0 <=? X
        then with_fraction (take (Z.to_nat (X + 1)) ds)
                           (rstrip_zeros (drop (Z.to_nat (X + 1)) ds))
        else py "0." ++ List.repeat (chr 48) (Z.to_nat (- X - 1)) ++ rstrip_zeros ds in
      if s then py "-" ++ body else body
  end.

(** ** Methods that change an object

    A method runs on the state of its object and leaves a state behind
    whether it returns or raises. *)

Definition method (S A : Type) : Type := S -> outcome A * S.

Definition m_ret {S A} (a : A) : method S A := fun s => (Ret a, s).

Definition m_bind {S A B} (m : method S A) (f : A -> method S B) : method S B :=
  fun s =>
    match m s with
    | (Ret a, s') => f a s'
    | (Raise e, s') => (Raise e, s')
    | (Stuck, s') => (Stuck, s')
    end.

(** A call that only reads the object. *)
Definition m_read {S A} (f : S -> outcome A) : method S A := fun s => (f s, s).

(** An assignment to the object's attributes. *)
Definition m_assign {S} (f : S -> S) : method S unit := fun s => (Ret tt, f s).

(** [try: m except ...: h] *)
Definition m_try {S A} (m : method S A) (h : exn -> method S A) : method S A :=
  fun s =>
    match m s with
    | (Raise e, s') => h e s'
    | r => r
    end.

Notation "'do' x <- m ; k" := (m_bind m (fun x => k))
  (at level 10, x name, m at level 100, k at level 200).
Notation "'run' m ; k" := (m_bind m (fun _ => k))
  (at level 10, m at level 100, k at level 200).

(** ** [TI84Engine] *)

Record EvaluationResult := mkResult { expression : str; value : str }.

Record TI84Engine := mkEngine {
  history_limit : Z;
  memory : float;
  history : list EvaluationResult
}.

(** [TI84Engine()] *)
Definition new_engine : TI84Engine := mkEngine 20 fzero [].

Definition set_history (h : list EvaluationResult) (self : TI84Engine) : TI84Engine :=
  mkEngine (history_limit self) (memory self) h.

Definition set_memory (x : float) (self : TI84Engine) : TI84Engine :=
  mkEngine (history_limit self) x (history self).

Definition clear_memory : method TI84Engine unit :=
  m_assign (set_memory fzero).

Definition add_to_memory (x : float) : method TI84Engine unit :=
  m_assign (fun self => set_memory (fadd (memory self) x) self).

Definition subtract_from_memory (x : float) : method TI84Engine unit :=
  m_assign (fun self => set_memory (fsub (memory self) x) self).

Definition recall_memory : method TI84Engine float :=
  m_read (fun self => Ret (memory self)).

(** [l[start:]] *)
Definition slice_from {A} (start : Z) (l : list A) : list A :=
  let n := Z.of_nat (length l) in
  let i := if start <? 0 then Z.max (start + n) 0 else Z.min start n in
  drop (Z.to_nat i) l.

Definition _append_history (expression value : str) : method TI84Engine unit :=
  run m_assign (fun self => set_history (history self ++ [mkResult expression value]) self);
  fun self =>
    if history_limit self <? Z.of_nat (length (history self))
    then m_assign (set_history (slice_from (- history_limit self) (history self))) self
    else m_ret tt self.

(** The text that stands for [Ans]. *)
Definition ans_text (self : TI84Engine) : str :=
  match last (history self) with
  | Some r => value r
  | None => py "0"
  end.

Definition replacements (self : TI84Engine) : list (str * str) :=
  [ (py "Ans", ans_text self);
    (py "^", py "**");
    (py "×", py "*");
    (py "÷", py "/");
    (py "√", py "sqrt") ].

Definition prepare_expression (self : TI84Engine) (expression : str) : outcome str :=
  let expr := strip expression in
  match expr with
  | [] => Raise (TI84Error (py "ERROR: SYNTAX"))
  | _ =>
      let expr := fold_left (fun e r => replace r.1 r.2 e) (replacements self) expr in
      Ret (sub_factorial expr)
  end.

Definition allowed_names (self : TI84Engine) (extra_context : list (list N * pyvalue))
    : gmap (list N) pyvalue :=
  dict_update
    (<[key "M" := VFloat (memory self)]>
       (<[key "math" := VMath]> (dict_update (dict_update ∅ _functions) _constants)))
    extra_context.

Definition _safe_eval (self : TI84Engine) (expression : str)
    (extra_context : list (list N * pyvalue)) : outcome float :=
  match py_eval expression (allowed_names self extra_context) with
  | Raise NameError => Raise (TI84Error (py "ERROR: SYNTAX"))
  | Raise e => Raise e
  | Stuck => Stuck
  | Ret result => py_float result
  end.

Definition c_1e_10 : float := S754_finite false 7737125245533627 (-86).
Definition c_1e4 : float := S754_finite false 5497558138880000 (-39).

Definition _format_result (value : float) : outcome str :=
  let value := if flt (fabs value) c_1e_10 then fzero else value in
  if flt (fabs value) c_1e4
  then n ← py_int value;
       if float_eq_int value n
       then n' ← py_int value; Ret (str_of_int n')
       else Ret (format_10g value)
  else Ret (format_10g value).

(** The [except] clauses of [evaluate]: what the first clause that matches
    raises; the last one is [except Exception], so an exception that is no
    [Exception] goes on as it is. *)
Definition evaluate_errors (exc : exn) : exn :=
  match exc with
  | ZeroDivisionError => TI84Error (py "ERROR: DIVIDE BY 0")
  | ValueError => TI84Error (py "ERROR: MATH")
  | OverflowError => TI84Error (py "ERROR: OVERFLOW")
  | _ => if is_Exception exc then TI84Error (py "ERROR: SYNTAX") else exc
  end.

Definition evaluate (expression : str) : method TI84Engine EvaluationResult :=
  do cleaned <- m_read (fun self => prepare_expression self expression);
  do result <- m_try (m_read (fun self => _safe_eval self cleaned []))
                     (fun exc => m_read (fun _ => Raise (evaluate_errors exc)));
  do result_str <- m_read (fun _ => _format_result result);
  run _append_history expression result_str;
  m_ret (mkResult expression result_str).

Definition evaluate_function (self : TI84Engine) (expression : str) (x_value : float)
    : outcome float :=
  cleaned ← prepare_expression self expression;
  _safe_eval self cleaned [(key "x", VFloat x_value)].

(** ** [GraphingEngine] *)

Record GraphWindow := mkWindow { xmin : float; xmax : float; ymin : float; ymax : float }.

Record GraphingEngine := mkGraphing {
  calculator : TI84Engine;
  equations : gmap (list N) str;
  window : GraphWindow
}.

Definition default_window : GraphWindow :=
  mkWindow (float_of_Z (-10)) (float_of_Z 10) (float_of_Z (-10)) (float_of_Z 10).

(** [GraphingEngine(calculator)] *)
Definition new_graphing (calculator : TI84Engine) : GraphingEngine :=
  mkGraphing calculator ∅ default_window.

Definition set_equations (eqs : gmap (list N) str) (self : GraphingEngine) : GraphingEngine :=
  mkGraphing (calculator self) eqs (window self).

Definition set_window_field (w : GraphWindow) (self : GraphingEngine) : GraphingEngine :=
  mkGraphing (calculator self) (equations self) w.

Definition set_equation (label expression : str) : method GraphingEngine unit :=
  let clean := strip expression in
  match clean with
  | _ :: _ => m_assign (fun self => set_equations (<[key_of label := clean]> (equations self)) self)
  | [] => m_assign (fun self => set_equations (delete (key_of label) (equations self)) self)
  end.

(** [a >= b] on floats *)
Definition fge (a b : float) : bool := fle b a.

Definition set_window (xmin xmax ymin ymax : float) : method GraphingEngine unit :=
  if fge xmin xmax || fge ymin ymax
  then m_read (fun _ => Raise (TI84Error (py "ERROR: WINDOW")))
  else m_assign (set_window_field (mkWindow xmin xmax ymin ymax)).

Definition auto_window : method GraphingEngine unit :=
  m_assign (set_window_field default_window).

Definition _generate_points (start stop : float) (count : nat) : list float :=
  let step := fdiv (fsub stop start) (float_of_Z (Z.max (Z.of_nat count - 1) 1)) in
  List.map (fun i => fadd start (fmul step (float_of_Z (Z.of_nat i)))) (seq 0 count).

Fixpoint _evaluate_series (self : GraphingEngine) (expression : str) (xs : list float)
    : outcome (list float) :=
  match xs with
  | [] => Ret []
  | x_value :: xs' =>
      y_value ← match evaluate_function (calculator self) expression x_value with
                | Raise (TI84Error _) => Ret nan
                | r => r
                end;
      values ← _evaluate_series self expression xs';
      Ret (y_value :: values)
  end.

(** [get_equations]: a copy of the slots. *)
Definition get_equations (self : GraphingEngine) : gmap (list N) str := equations self.

(** [math.isnan] and [math.isinf] *)
Definition isnan (x : float) : bool :=
  match x with S754_nan => true | _ => false end.
Definition isinf (x : float) : bool :=
  match x with S754_infinity _ => true | _ => false end.

(** [a / b] on floats *)
Definition float_truediv (a b : float) : outcome float :=
  if is_zero b then Raise ZeroDivisionError else Ret (fdiv a b).

(** The [try] block of [_find_intersections]: both curves at one point. *)
Definition sample_pair (self : GraphingEngine) (expr_a expr_b : str) (x_value : float)
    : outcome (float * float) :=
  y_a ← evaluate_function (calculator self) expr_a x_value;
  y_b ← evaluate_function (calculator self) expr_b x_value;
  Ret (y_a, y_b).

(** What one valid sample adds to [intersections], given the previous valid
    sample [(last_diff, last_x, last_y)], if there is one. *)
Definition crossing (last : option (float * float * float)) (x_value y_a diff : float)
    : outcome (list (float * float)) :=
  match last with
  | None => Ret []
  | Some (last_diff, last_x, last_y) =>
      if is_zero diff then Ret [(x_value, y_a)]
      else if xorb (flt fzero diff) (flt fzero last_diff)
      then proportion ← float_truediv (fabs last_diff) (fadd (fabs last_diff) (fabs diff));
           let x_intersect := fadd last_x (fmul (fsub x_value last_x) proportion) in
           let y_intersect := fadd last_y (fmul (fsub y_a last_y) proportion) in
           Ret [(x_intersect, y_intersect)]
      else Ret []
  end.

(** The loop of [_find_intersections]; [last] holds [last_diff], [last_x]
    and [last_y], which are set together. *)
Fixpoint find_from (self : GraphingEngine) (expr_a expr_b : str)
    (last : option (float * float * float)) (xs : list float)
    : outcome (list (float * float)) :=
  match xs with
  | [] => Ret []
  | x_value :: xs' =>
      match sample_pair self expr_a expr_b x_value with
      | Raise (TI84Error _) => find_from self expr_a expr_b last xs'
      | Raise e => Raise e
      | Stuck => Stuck
      | Ret (y_a, y_b) =>
          let diff := fsub y_a y_b in
          if isnan diff || isinf diff then find_from self expr_a expr_b last xs'
          else
            found ← crossing last x_value y_a diff;
            rest ← find_from self expr_a expr_b (Some (diff, x_value, y_a)) xs';
            Ret (found ++ rest)
      end
  end.

Definition _find_intersections (self : GraphingEngine) (expr_a expr_b : str)
    (xs : list float) : outcome (list (float * float)) :=
  find_from self expr_a expr_b None xs.

(** ** [CalculatorUI]: the expression line and the history keys

    The handlers of [ui.py] that edit the expression, evaluate it and walk
    through the history.  Of the widgets, the state keeps what the handlers
    write to them: the text of [display_var] and the lines of [history_box]. *)

Module CalculatorUI.

Definition item_expression (item : EvaluationResult) : str := expression item.

(** [f"{item.expression} = {item.value}"] *)
Definition history_line (item : EvaluationResult) : str :=
  expression item ++ py " = " ++ value item.

Record t := mk {
  engine : TI84Engine;
  expression : str;
  display_var : str;
  _history_cursor : option Z;
  history_box : list str
}.

(** What a handler ends in: it returns, an index is out of range, another
    exception leaves it, or the evaluation is outside the modelled fragment. *)
Inductive result :=
| Done (self : t)
| IndexError
| Escaped (e : exn)
| Unmodelled.

(** [l[i]] *)
Definition py_index {A} (l : list A) (i : Z) : option A :=
  let n := Z.of_nat (length l) in
  let j := if i <? 0 then i + n else i in
  if (0 <=? j) && (j <? n) then l !! Z.to_nat j else None.

(** [s or "0"] *)
Definition or_zero (s : str) : str :=
  match s with
  | [] => py "0"
  | _ => s
  end.

Definition _refresh_history (self : t) : t :=
  mk (engine self) (expression self) (display_var self) (_history_cursor self)
     (List.map history_line (rev (history (engine self)))).

(** [CalculatorUI(master)] *)
Definition new : t := _refresh_history (mk new_engine [] (py "0") None []).

Definition _append_to_expression (text : str) (self : t) : result :=
  Done (mk (engine self) (expression self ++ text) (expression self ++ text) None
           (history_box self)).

Definition _clear_expression (self : t) : result :=
  Done (mk (engine self) [] (py "0") None (history_box self)).

Definition _backspace (self : t) : result :=
  let e := removelast (expression self) in
  Done (mk (engine self) e (or_zero e) None (history_box self)).

(** [_evaluate_expression], with what the call [self.engine.evaluate] does
    as the argument [engine_evaluate]. *)
Definition _evaluate_expression_with
    (engine_evaluate : str -> method TI84Engine EvaluationResult) (self : t) : result :=
  match expression self with
  | [] => Done self
  | _ =>
      match engine_evaluate (expression self) (engine self) with
      | (Ret r, engine') =>
          Done (_refresh_history (mk engine' (value r) (value r) None (history_box self)))
      | (Raise (TI84Error msg), engine') =>
          Done (mk engine' (expression self) msg (_history_cursor self) (history_box self))
      | (Raise e, _) => Escaped e
      | (Stuck, _) => Unmodelled
      end
  end.

Definition _evaluate_expression : t -> result := _evaluate_expression_with evaluate.

(** Shows the entry at [cursor], which becomes the cursor. *)
Definition show_entry (cursor : Z) (self : t) : result :=
  match py_index (history (engine self)) cursor with
  | Some item =>
      Done (mk (engine self) (item_expression item) (item_expression item) (Some cursor)
               (history_box self))
  | None => IndexError
  end.

Definition _history_previous (self : t) : result :=
  match history (engine self) with
  | [] => Done self
  | _ =>
      let cursor :=
        match _history_cursor self with
        | None => Z.of_nat (length (history (engine self))) - 1
        | Some c => Z.max 0 (c - 1)
        end in
      show_entry cursor self
  end.

Definition _history_next (self : t) : result :=
  match _history_cursor self with
  | None => Done self
  | Some c =>
      if Z.of_nat (length (history (engine self))) - 1 <=? c
      then Done (mk (engine self) [] (py "0") None (history_box self))
      else show_entry (c + 1) self
  end.

(** The keys of the keypad that are bound to these handlers. *)
Inductive key :=
| KText (text : str)    (* a key that appends its text *)
| KClear                (* CLEAR *)
| KDel                  (* DEL *)
| KEnter                (* ENTER and = *)
| KUp                   (* the up arrow *)
| KDown.                (* the down arrow *)

Definition press_with (engine_evaluate : str -> method TI84Engine EvaluationResult)
    (k : key) (self : t) : result :=
  match k with
  | KText text => _append_to_expression text self
  | KClear => _clear_expression self
  | KDel => _backspace self
  | KEnter => _evaluate_expression_with engine_evaluate self
  | KUp => _history_previous self
  | KDown => _history_next self
  end.

(** The keys pressed one after the other, until a handler fails. *)
Fixpoint press_all_with (engine_evaluate : str -> method TI84Engine EvaluationResult)
    (ks : list key) (self : t) : result :=
  match ks with
  | [] => Done self
  | k :: ks' =>
      match press_with engine_evaluate k self with
      | Done self' => press_all_with engine_evaluate ks' self'
      | r => r
      end
  end.

(** The keys of a calculator that holds a [TI84Engine]. *)
Definition press : key -> t -> result := press_with evaluate.
Definition press_all : list key -> t -> result := press_all_with evaluate.

(** The cursor, when there is one, is an index of the history. *)
Definition cursor_ok (self : t) : Prop :=
  match _history_cursor self with
  | None => True
  | Some c => 0 <= c < Z.of_nat (length (history (engine self)))
  end.

End CalculatorUI.

(** ** Vocabulary of the properties *)








(** [old in s] for a non-empty [old] *)
Fixpoint occurs (old s : str) : bool :=
  match s with
  | [] => false
  | _ :: s' => startswith old s || occurs old s'
  end.

Definition has_code (n : N) (s : str) : bool :=
  existsb (fun c => (code c =? n)%N) s.

(** The glyphs a pass replaces by one character or one name. *)
Definition operator_glyphs : list N := [94; 215; 247; 8730]%N.

Definition no_operator_glyph (s : str) : bool :=
  forallb (fun g => negb (has_code g s)) operator_glyphs.

(** No calculator notation at all: no operator glyph, no [!], no [Ans]. *)
Definition canonical (s : str) : bool :=
  no_operator_glyph s && negb (has_code 33 s) && negb (occurs (py "Ans") s).

Definition finite (x : float) : Prop :=
  match x with
  | S754_zero _ | S754_finite _ _ _ => True
  | _ => False
  end.

(** The number a float stands for is an integer. *)
Definition integral (x : float) : Prop :=
  match x with
  | S754_zero _ => True
  | S754_finite _ m e => 0 <= e \/ (2 ^ (- e) | Z.pos m)
  | _ => False
  end.

(** The engine after recording the results [rs] one after the other. *)
Definition append_all (rs : list EvaluationResult) (self : TI84Engine) : TI84Engine :=
  foldl (fun s r => (_append_history (expression r) (value r) s).2) self rs.

(** The [n] most recent entries of a ledger, oldest first. *)
Definition most_recent {A} (n : nat) (l : list A) : list A :=
  drop (length l - n) l.

(** A sample that [_find_intersections] passes over or uses, with the
    difference of the curves on the given side of zero when it uses it. *)
Definition sample_on_side (above : bool) (self : GraphingEngine) (expr_a expr_b : str)
    (x : float) : Prop :=
  match sample_pair self expr_a expr_b x with
  | Ret (y_a, y_b) =>
      if above then flt fzero (fsub y_a y_b) = true else flt (fsub y_a y_b) fzero = true
  | Raise (TI84Error _) => True
  | _ => False
  end.

(** The value of a curve at a point, NaN where it has none. *)
Definition curve_at (self : GraphingEngine) (expr : str) (x : float) : float :=
  match evaluate_function (calculator self) expr x with
  | Ret y => y
  | _ => nan
  end.

(** The invariant of a graph window. *)
Definition window_ok (w : GraphWindow) : Prop :=
  flt (xmin w) (xmax w) = true /\ flt (ymin w) (ymax w) = true.

(** A sample [_find_intersections] passes over: one of the curves raises a
    [TI84Error] there, or their difference is NaN or infinite. *)
Definition passed_over (self : GraphingEngine) (expr_a expr_b : str) (x : float) : bool :=
  match sample_pair self expr_a expr_b x with
  | Ret (y_a, y_b) => isnan (fsub y_a y_b) || isinf (fsub y_a y_b)
  | Raise (TI84Error _) => true
  | _ => false
  end.

(** *** Numbers and numerals

    What a rendered number is measured against: the rational a float stands
    for, and the number a decimal numeral denotes, read from its characters. *)

(** The rational a finite float stands for. *)
Definition float_value (x : float) : Q :=
  match x with
  | S754_finite s m e => (inject_Z (if s then Z.neg m else Z.pos m) * 2 ^ e)%Q
  | _ => 0%Q
  end.

(** [c * 10^k] *)
Definition decimal_value (c k : Z) : Q := (inject_Z c * 10 ^ k)%Q.

(** Digits read from the left. *)
Fixpoint read_digits (acc : Z) (s : str) : option Z :=
  match s with
  | [] => Some acc
  | c :: s' => if is_digit c then read_digits (10 * acc + digit_val c) s' else None
  end.

(** One digit at least. *)
Definition read_nat (s : str) : option Z :=
  match s with
  | [] => None
  | _ => read_digits 0 s
  end.

(** The text before the first character of code [n], and the text after it. *)
Fixpoint split_at (n : N) (s : str) : str * option str :=
  match s with
  | [] => ([], None)
  | c :: s' =>
      if (code c =? n)%N then ([], Some s')
      else let '(a, b) := split_at n s' in (c :: a, b)
  end.

(** Digits after a sign [+] or [-], or after none. *)
Definition read_signed (s : str) : option Z :=
  match s with
  | c :: s' =>
      if (code c =? 45)%N then Z.opp <$> read_nat s'
      else if (code c =? 43)%N then read_nat s'
      else read_nat s
  | [] => None
  end.

(** The number a decimal numeral without a sign denotes, [c * 10^k] as the
    pair [(c, k)]: digits, then a point and digits, then [e] and an
    exponent; [c] is the digits as they are written, the point left out. *)
Definition read_unsigned (s : str) : option (Z * Z) :=
  let '(mantissa, exponent) := split_at 101 s in
  let '(int_part, fraction) := split_at 46 mantissa in
  i ← read_nat int_part;
  f ← match fraction with Some t => read_nat t | None => Some 0 end;
  x ← match exponent with Some t => read_signed t | None => Some 0 end;
  let places := Z.of_nat (match fraction with Some t => length t | None => O end) in
  Some (i * 10 ^ places + f, x - places).

(** The same after a sign [-], or after none. *)
Definition read_decimal (s : str) : option (Z * Z) :=
  match s with
  | c :: s' =>
      if (code c =? 45)%N then '(n, k) ← read_unsigned s'; Some (- n, k)
      else read_unsigned s
  | [] => None
  end.

(** [out] is the integer [n] written out: a [-] when it is negative, then
    its decimal digits, as many as the number has. *)
Definition plain_integer (n : Z) (out : str) : Prop :=
  exists ds,
    out = (if n <? 0 then py "-" else []) ++ ds
    /\ read_nat ds = Some (Z.abs n)
    /\ 10 ^ (Z.of_nat (length ds) - 1) <= Z.max 1 (Z.abs n).

(** [out] is [v] with ten significant digits: a decimal numeral of at most
    ten digits (zeros in front apart) that is within half a unit of the
    tenth significant digit of [v]. *)
Definition ten_significant_digits (v : float) (out : str) : Prop :=
  exists c k X,
    read_decimal out = Some (c, k)
    /\ Z.abs c < 10 ^ 10
    /\ (10 ^ X <= Qabs (float_value v) < 10 ^ (X + 1))%Q
    /\ (Qabs (float_value v - decimal_value c k) <= (1 # 2) * 10 ^ (X - 9))%Q.

(** The number a string of digits stands for. *)
Definition dec (s : str) : Z := fold_left (fun acc c => 10 * acc + digit_val c) s 0.

(** The same for the digits of the standard library. *)
Fixpoint horner (acc : Z) (d : Decimal.uint) : Z :=
  match d with
  | Decimal.Nil => acc
  | Decimal.D0 d => horner (10 * acc) d
  | Decimal.D1 d => horner (10 * acc + 1) d
  | Decimal.D2 d => horner (10 * acc + 2) d
  | Decimal.D3 d => horner (10 * acc + 3) d
  | Decimal.D4 d => horner (10 * acc + 4) d
  | Decimal.D5 d => horner (10 * acc + 5) d
  | Decimal.D6 d => horner (10 * acc + 6) d
  | Decimal.D7 d => horner (10 * acc + 7) d
  | Decimal.D8 d => horner (10 * acc + 8) d
  | Decimal.D9 d => horner (10 * acc + 9) d
  end.

Definition all_zeros (s : str) : bool := forallb (fun c => (code c =? 48)%N) s.

(** [10^X <= num/den < 10^(X+1)], without fractions. *)
Definition exponent_ok (num den X : Z) : Prop :=
  if 0 <=? X then den * 10 ^ X <= num < den * 10 ^ (X + 1)
  else den <= num * 10 ^ (- X) < den * 10.

(** The quotient [ten_digits] rounds: [num/den] moved by [9 - X] places. *)
Definition scaled (num den X : Z) : Z * Z :=
  if X <=? 9 then (num * 10 ^ (9 - X), den) else (num, den * 10 ^ (X - 9)).

(** Evaluation of closed Python code. *)
Ltac run_python := vm_compute; reflexivity.


(** ** Properties *)

(** *** Factorial notation *)

(** C3. The pass turns [5!], [(2+3)!] and [-1!] into calls of
    [math.factorial(int(...))]; the namespace of [_safe_eval] has no [int],
    so in every state of the engine each of the three evaluations ends in
    [ERROR: SYNTAX] and leaves the engine as it was: none of them returns
    120, and the third one is no [ERROR: MATH]. *)
Theorem C3_factorial_ends_in_syntax_error (self : TI84Engine) :
  prepare_expression self (py "5!") = Ret (py "math.factorial(int(5))")
  /\ prepare_expression self (py "(2+3)!") = Ret (py "math.factorial(int((2+3)))")
  /\ prepare_expression self (py "-1!") = Ret (py "-math.factorial(int(1))")
  /\ allowed_names self [] !! key "int" = None
  /\ evaluate (py "5!") self = (Raise (TI84Error (py "ERROR: SYNTAX")), self)
  /\ evaluate (py "(2+3)!") self = (Raise (TI84Error (py "ERROR: SYNTAX")), self)
  /\ evaluate (py "-1!") self = (Raise (TI84Error (py "ERROR: SYNTAX")), self).
Proof. repeat split; reflexivity. Qed.

(** The factorial function itself is in reach and works: what fails is the
    conversion the rewriting wraps around its operand. *)
Lemma factorial_call_without_int (self : TI84Engine) :
  _safe_eval self (py "factorial(5)") [] = Ret (float_of_Z 120)
  /\ _safe_eval self (py "factorial(-1)") [] = Raise ValueError.
Proof. split; reflexivity. Qed.

(** *** Sampling *)

(** C1. [_evaluate_series] turns a [TI84Error] into a NaN, and
    [evaluate_function] raises a [TI84Error] for an empty expression and an
    unknown name only: a division by zero or a domain error of a sample
    leaves [_evaluate_series] as the exception Python raised, and no series
    is produced.  So it is for [1/x] sampled at 0 and 1, and for the square
    root of [x] over the 400 points of the default window. *)
Theorem C1_sampling_error_escapes :
  let self := new_graphing new_engine in
  _evaluate_series self (py "1/x") [float_of_Z 0; float_of_Z 1] = Raise ZeroDivisionError
  /\ _evaluate_series self (py "√(x)") (_generate_points (float_of_Z (-10)) (float_of_Z 10) 400)
     = Raise ValueError
  /\ _evaluate_series self (py "y") [float_of_Z 0; float_of_Z 1] = Ret [nan; nan].
Proof. repeat split; vm_compute; reflexivity. Qed.

(** Any exception of a sample other than a [TI84Error] ends the series. *)
Lemma series_lets_other_errors_pass (self : GraphingEngine) (expression : str)
    (x : float) (xs : list float) (e : exn) :
  evaluate_function (calculator self) expression x = Raise e ->
  (forall msg, e <> TI84Error msg) ->
  _evaluate_series self expression (x :: xs) = Raise e.
Proof.
  intros He Hne. simpl. rewrite He.
  destruct e as [msg| | | | | | |]; [now destruct (Hne msg)|reflexivity..].
Qed.

(** [evaluate_function] hands on what [eval] raises, a [NameError] apart. *)
Lemma evaluate_function_hands_on (self : TI84Engine) (expression cleaned : str)
    (x : float) (e : exn) :
  prepare_expression self expression = Ret cleaned ->
  py_eval cleaned (allowed_names self [(key "x", VFloat x)]) = Raise e ->
  e <> NameError ->
  evaluate_function self expression x = Raise e.
Proof.
  intros Hp He Hne. unfold evaluate_function, _safe_eval. rewrite Hp. simpl.
  rewrite He. now destruct e.
Qed.

(** *** Evaluation and the history *)

Lemma append_history_returns (expression value : str) (self : TI84Engine) :
  exists self', _append_history expression value self = (Ret tt, self').
Proof.
  unfold _append_history, m_bind, m_assign, m_ret; simpl.
  destruct (_ <? _); eauto.
Qed.

(** A failing [evaluate] stops before [_append_history]: it leaves the
    engine untouched. *)
Lemma evaluate_raise_same_engine (expression : str) (self self' : TI84Engine) (e : exn) :
  evaluate expression self = (Raise e, self') -> self' = self.
Proof.
  unfold evaluate, m_bind, m_read, m_try, m_ret.
  destruct (prepare_expression self expression) as [cleaned| |]; [|congruence..].
  destruct (_safe_eval self cleaned []) as [result| |]; [|congruence..].
  destruct (_format_result result) as [result_str| |]; [|congruence..].
  destruct (append_history_returns expression result_str self) as [s Hs].
  rewrite Hs. congruence.
Qed.



(** *** Formatting a result *)

Lemma exact_multiple (m p : Z) :
  0 < p -> (m =? m / p * p) = true <-> (p | m).
Proof.
  intros Hp. rewrite Z.eqb_eq, <- Z.mod_divide by lia.
  pose proof (Z.div_mod m p ltac:(lia)). lia.
Qed.

(** [value == int(value)] holds exactly for the floats that are integers. *)
Lemma eq_int_iff_integral (v : float) (n : Z) :
  py_int v = Ret n -> float_eq_int v n = true <-> integral v.
Proof.
  destruct v as [s|s| |s m e]; simpl; try discriminate.
  - intros [= <-]. now rewrite Z.eqb_refl.
  - intros [= <-]. destruct (Z.leb_spec 0 e) as [He|He].
    + split; [now left|intros _]. apply Z.eqb_eq. destruct s; lia.
    + assert (Hp : 0 < 2 ^ (- e)) by (apply Z.pow_pos_nonneg; lia).
      pose proof (exact_multiple (Z.pos m) (2 ^ (- e)) Hp) as Hx.
      rewrite Z.eqb_eq in Hx. rewrite Z.eqb_eq.
      split.
      * intros H. right. apply Hx. destruct s; lia.
      * intros [H|H]; [lia|]. apply Hx in H. destruct s; lia.
Qed.

Lemma small_is_finite (v c : float) :
  flt (fabs v) c = true -> exists n, py_int v = Ret n.
Proof.
  destruct v as [s|s| |s m e]; simpl; eauto.
  - destruct c as [?|[]| |]; discriminate.
  - discriminate.
Qed.

(** [_format_result] never raises. *)
Lemma format_result_returns (v : float) :
  exists s, _format_result v = Ret s.
Proof.
  unfold _format_result.
  destruct (flt (fabs v) c_1e_10); [vm_compute; eauto|].
  destruct (flt (fabs v) c_1e4) eqn:H4; [|eauto].
  destruct (small_is_finite _ _ H4) as [n ->]. simpl.
  destruct (float_eq_int v n); eauto.
Qed.

(** *** The graph window *)

Lemma SFcompare_swap (a b : float) :
  SFcompare b a = CompOpp <$> SFcompare a b.
Proof.
  destruct a as [s|s| |s m e], b as [s'|s'| |s' m' e']; simpl;
    try reflexivity; try (destruct s; reflexivity); try (destruct s'; reflexivity);
    try (destruct s, s'; reflexivity).
  destruct s, s'; simpl; try reflexivity;
    rewrite (Z.compare_antisym e e'); destruct (e ?= e'); simpl; try reflexivity;
    pose proof (Pos.compare_cont_antisym m m' Eq) as Hc; simpl in Hc;
    rewrite <- Hc; destruct (Pos.compare_cont Eq m m'); reflexivity.
Qed.

(** [a < b] excludes [a >= b]. *)
Lemma flt_not_fge (a b : float) : flt a b = true -> fge a b = false.
Proof.
  unfold flt, fge, fle, SFltb, SFleb. rewrite (SFcompare_swap a b).
  destruct (SFcompare a b) as [[]|]; simpl; congruence.
Qed.

(** C7. [set_window] with [xmin >= xmax] or [ymin >= ymax] raises
    [ERROR: WINDOW] and leaves the engine, its window included, as it was;
    with [xmin < xmax] and [ymin < ymax] it returns and the window is the
    four bounds given. *)
Theorem C7_set_window (self : GraphingEngine) (x0 x1 y0 y1 : float) :
  (fge x0 x1 = true \/ fge y0 y1 = true ->
     set_window x0 x1 y0 y1 self = (Raise (TI84Error (py "ERROR: WINDOW")), self))
  /\ (flt x0 x1 = true /\ flt y0 y1 = true ->
     set_window x0 x1 y0 y1 self
     = (Ret tt, mkGraphing (calculator self) (equations self) (mkWindow x0 x1 y0 y1))).
Proof.
  unfold set_window. split.
  - intros H. assert (fge x0 x1 || fge y0 y1 = true) as ->; [|reflexivity].
    apply orb_true_iff. exact H.
  - intros [Hx Hy]. rewrite (flt_not_fge _ _ Hx), (flt_not_fge _ _ Hy). reflexivity.
Qed.

Lemma C7_witness :
  let self := new_graphing new_engine in
  set_window (float_of_Z 5) (float_of_Z 1) (float_of_Z (-10)) (float_of_Z 10) self
  = (Raise (TI84Error (py "ERROR: WINDOW")), self)
  /\ window (set_window (float_of_Z (-2)) (float_of_Z 2) (float_of_Z (-1)) (float_of_Z 1) self).2
     = mkWindow (float_of_Z (-2)) (float_of_Z 2) (float_of_Z (-1)) (float_of_Z 1).
Proof.
  intros self. split.
  - apply (proj1 (C7_set_window self _ _ _ _)). left. run_python.
  - rewrite (proj2 (C7_set_window self (float_of_Z (-2)) (float_of_Z 2)
                      (float_of_Z (-1)) (float_of_Z 1))); [reflexivity|].
    split; run_python.
Defined.

(** *** Equation slots *)

Lemma lstrip_split (s : str) :
  exists l, s = l ++ lstrip s /\ forallb isspace l = true.
Proof.
  induction s as [|c s (l & Hs & Hl)]; simpl.
  - now exists [].
  - destruct (isspace c) eqn:Hc.
    + exists (c :: l). simpl. rewrite Hc, Hl. split; [congruence|reflexivity].
    + now exists [].
Qed.

Lemma lstrip_head_not_space (s t : str) (c : char) :
  lstrip s = c :: t -> isspace c = false.
Proof.
  induction s as [|d s IH]; simpl; [discriminate|].
  destruct (isspace d) eqn:Hd; [exact IH|]. intros [= <- _]. exact Hd.
Qed.

Lemma lstrip_nil (s : str) : lstrip s = [] <-> forallb isspace s = true.
Proof.
  induction s as [|c s IH]; simpl; [tauto|].
  destruct (isspace c); simpl; [exact IH|]. split; discriminate.
Qed.

Lemma forallb_rev {A} (f : A -> bool) (l : list A) :
  forallb f (rev l) = forallb f l.
Proof.
  induction l as [|a l IH]; simpl; [reflexivity|].
  rewrite forallb_app, IH. simpl. rewrite andb_true_r. apply andb_comm.
Qed.

(** [strip] removes a run of whitespace at each end, and what it returns
    neither starts nor ends with whitespace. *)
Lemma strip_spec (s : str) :
  (exists l r, s = l ++ strip s ++ r
     /\ forallb isspace l = true /\ forallb isspace r = true)
  /\ (forall c t, strip s = c :: t -> isspace c = false)
  /\ (forall c t, rev (strip s) = c :: t -> isspace c = false).
Proof.
  unfold strip.
  destruct (lstrip_split s) as (l & Hs & Hl).
  destruct (lstrip_split (rev (lstrip s))) as (r & Hr & Hrs).
  assert (Hm : lstrip s = rev (lstrip (rev (lstrip s))) ++ rev r).
  { rewrite <- rev_app_distr, <- Hr. now rewrite rev_involutive. }
  split; [|split].
  - exists l, (rev r). rewrite <- Hm, forallb_rev. auto.
  - intros c t Hc. rewrite Hc in Hm. simpl in Hm.
    exact (lstrip_head_not_space _ _ _ Hm).
  - intros c t. rewrite rev_involutive. apply lstrip_head_not_space.
Qed.

Lemma strip_nil (s : str) : strip s = [] <-> forallb isspace s = true.
Proof.
  split.
  - intros H. destruct (strip_spec s) as ((l & r & Hs & Hl & Hr) & _).
    rewrite Hs, H, !forallb_app, Hl, Hr. reflexivity.
  - intros H. unfold strip. apply lstrip_nil in H. now rewrite H.
Qed.

Lemma graphing_eta (self : GraphingEngine) :
  mkGraphing (calculator self) (equations self) (window self) = self.
Proof. now destruct self. Qed.

(** C10. [set_equation] with an empty or all-whitespace expression returns
    and deletes the slot of the label (the engine stays as it was when there
    is none); with any other expression it returns and the slot holds the
    expression without the whitespace around it (a run of whitespace is cut
    off at each end, and what is left neither starts nor ends with
    whitespace), which is not empty; so a call never raises and slots that
    were all non-empty stay so. *)
Theorem C10_set_equation (self : GraphingEngine) (label e : str) :
  (forallb isspace e = true ->
     set_equation label e self
     = (Ret tt, set_equations (delete (key_of label) (equations self)) self)
     /\ (equations self !! key_of label = None -> set_equation label e self = (Ret tt, self)))
  /\ (forallb isspace e = false ->
     strip e <> []
     /\ set_equation label e self
        = (Ret tt, set_equations (<[key_of label := strip e]> (equations self)) self))
  /\ ((forall k v, equations self !! k = Some v -> v <> []) ->
      forall k v, equations (set_equation label e self).2 !! k = Some v -> v <> [])
  /\ ((exists l r, e = l ++ strip e ++ r
         /\ forallb isspace l = true /\ forallb isspace r = true)
      /\ (forall c t, strip e = c :: t -> isspace c = false)
      /\ (forall c t, rev (strip e) = c :: t -> isspace c = false)).
Proof.
  unfold set_equation, m_assign. split; [|split; [|split]].
  - intros H. apply strip_nil in H. rewrite H. split; [reflexivity|].
    intros Hk. unfold set_equations. rewrite (delete_id _ _ Hk).
    now rewrite graphing_eta.
  - intros H. destruct (strip e) eqn:Hs; [|split; [discriminate|reflexivity]].
    apply strip_nil in Hs. congruence.
  - intros Hinv k v. destruct (strip e) as [|c t] eqn:Hs; simpl.
    + intros Hk. apply lookup_delete_Some in Hk as [_ Hk]. eauto.
    + intros Hk. apply lookup_insert_Some in Hk as [[_ <-]|[_ Hk]]; [discriminate|eauto].
  - exact (strip_spec e).
Qed.

Lemma C10_witness :
  let self := new_graphing new_engine in
  let y1 := py "Y1" in
  equations (set_equation y1 (py "  x*x ") self).2 = {[ key "Y1" := py "x*x" ]}
  /\ set_equation y1 (py "   ") (set_equation y1 (py "  x*x ") self).2 = (Ret tt, self)
  /\ set_equation y1 (py "") self = (Ret tt, self).
Proof.
  intros self y1. split; [|split].
  - destruct (proj1 (proj2 (C10_set_equation self y1 (py "  x*x ")))) as [_ ->];
      reflexivity.
  - destruct (proj1 (C10_set_equation (set_equation y1 (py "  x*x ") self).2 y1 (py "   ")))
      as [-> _]; reflexivity.
  - destruct (proj1 (C10_set_equation self y1 (py ""))) as [_ ->]; reflexivity.
Defined.

(** *** The bounded history *)

Lemma append_history_state (e v : str) (self : TI84Engine) :
  _append_history e v self
  = (Ret tt,
     let h := history self ++ [mkResult e v] in
     if history_limit self <? Z.of_nat (length h)
     then mkEngine (history_limit self) (memory self) (slice_from (- history_limit self) h)
     else mkEngine (history_limit self) (memory self) h).
Proof.
  unfold _append_history, m_bind, m_assign, m_ret, set_history. simpl.
  destruct (_ <? _); reflexivity.
Qed.

(** C5. With a capacity of 0 the slice [history[-0:]] is the whole list:
    every record stays, in an engine of any state, and after one successful
    [evaluate] on a new engine of capacity 0 the history has one entry. *)
Theorem C5_capacity_zero_keeps_all (m : float) (h : list EvaluationResult) (e v : str) :
  history (_append_history e v (mkEngine 0 m h)).2 = h ++ [mkResult e v]
  /\ history (evaluate (py "1+1") (mkEngine 0 fzero [])).2 = [mkResult (py "1+1") (py "2")].
Proof.
  split; [|run_python].
  rewrite append_history_state. simpl.
  destruct (0 <? Z.of_nat (length (h ++ [mkResult e v]))) eqn:H; simpl; [|reflexivity].
  unfold slice_from. change (- 0) with 0. simpl (0 <? 0).
  rewrite Z.min_l by lia. reflexivity.
Qed.

(** With a capacity of at least 1, a record leaves the [history_limit] most
    recent entries of the extended ledger. *)
Lemma append_history_recent (e v : str) (self : TI84Engine) :
  0 < history_limit self ->
  history (_append_history e v self).2
  = most_recent (Z.to_nat (history_limit self)) (history self ++ [mkResult e v])
  /\ history_limit (_append_history e v self).2 = history_limit self.
Proof.
  intros Hl. rewrite append_history_state. unfold most_recent. simpl.
  destruct (Z.ltb_spec (history_limit self) (Z.of_nat (length (history self ++ [mkResult e v]))));
    simpl; split; try reflexivity.
  - unfold slice_from. f_equal.
    destruct (Z.ltb_spec (- history_limit self) 0); lia.
  - replace (length (history self ++ [mkResult e v]) - Z.to_nat (history_limit self))%nat
      with O by lia.
    reflexivity.
Qed.

Lemma most_recent_app {A} (n : nat) (a b : list A) :
  most_recent n (most_recent n a ++ b) = most_recent n (a ++ b).
Proof.
  unfold most_recent.
  destruct (Nat.le_gt_cases (length a) n) as [H|H].
  - replace (length a - n)%nat with O by lia. reflexivity.
  - rewrite !length_app, length_drop.
    replace (length a - (length a - n) + length b - n)%nat with (length b) by lia.
    rewrite <- (drop_app_le a b (length a - n)) by lia.
    rewrite drop_drop. f_equal. lia.
Qed.

Lemma append_all_recent (rs : list EvaluationResult) (r : EvaluationResult) (self : TI84Engine) :
  0 < history_limit self ->
  history (append_all (r :: rs) self)
  = most_recent (Z.to_nat (history_limit self)) (history self ++ r :: rs).
Proof.
  revert r self. induction rs as [|r' rs IH]; intros r self Hl.
  - destruct r as [e v]. exact (proj1 (append_history_recent e v self Hl)).
  - change (append_all (r :: r' :: rs) self)
      with (append_all (r' :: rs) (_append_history (expression r) (value r) self).2).
    destruct (append_history_recent (expression r) (value r) self Hl) as [Hh Hk].
    rewrite IH by lia. rewrite Hh, Hk, most_recent_app.
    destruct r. simpl. now rewrite <- app_assoc.
Qed.

(** With a capacity of at least 1: after any records the history is no
    longer than the capacity, and after [capacity + k] records it is the
    [capacity] most recent of them, oldest first. *)
Theorem history_bounded_when_capacity_positive
    (rs : list EvaluationResult) (self : TI84Engine) :
  0 < history_limit self ->
  rs <> [] ->
  let n := Z.to_nat (history_limit self) in
  (length (history (append_all rs self)) <= n)%nat
  /\ ((n <= length rs)%nat ->
      history (append_all rs self) = most_recent n rs
      /\ length (history (append_all rs self)) = n).
Proof.
  intros Hl Hrs n. destruct rs as [|r rs]; [done|].
  rewrite append_all_recent by done. fold n. unfold most_recent.
  split; [rewrite length_drop; lia|].
  intros Hn. rewrite !length_drop, length_app.
  split; [|lia].
  replace (length (history self) + length (r :: rs) - n)%nat
    with (length (history self) + (length (r :: rs) - n))%nat by lia.
  now rewrite drop_app_add.
Qed.

Lemma history_bounded_witness :
  let r := fun s => mkResult (py s) (py s) in
  history (append_all [r "1"; r "2"; r "3"]%string (mkEngine 2 fzero [r "0"%string]))
  = [r "2"; r "3"]%string.
Proof.
  intros r.
  destruct (history_bounded_when_capacity_positive [r "1"; r "2"; r "3"]%string
              (mkEngine 2 fzero [r "0"%string])) as [_ H]; [reflexivity|discriminate|].
  destruct H as [-> _]; [simpl; lia|reflexivity].
Defined.

(** *** Text replacement *)

Lemma startswith_self (old s : str) : startswith old (old ++ s) = true.
Proof.
  induction old as [|o old IH]; simpl; [reflexivity|].
  unfold code_eqb. now rewrite N.eqb_refl.
Qed.

Lemma replace_skip (old new t s : str) :
  replace_from old new (length t) (t ++ s) = replace_from old new O s.
Proof. induction t as [|c t IH]; simpl; [reflexivity|exact IH]. Qed.

(** An occurrence of the token becomes the new text. *)
Lemma replace_at_token (o : char) (old new s : str) :
  replace (o :: old) new ((o :: old) ++ s) = new ++ replace (o :: old) new s.
Proof.
  unfold replace.
  change (replace_from (o :: old) new 0 ((o :: old) ++ s))
    with (if startswith (o :: old) ((o :: old) ++ s)
          then new ++ replace_from (o :: old) new (length (o :: old) - 1) (old ++ s)
          else o :: replace_from (o :: old) new 0 (old ++ s)).
  rewrite startswith_self.
  replace (length (o :: old) - 1)%nat with (length old) by (simpl; lia).
  now rewrite replace_skip.
Qed.

Lemma startswith_app_long (old x y : str) :
  (length old <= length x)%nat -> startswith old (x ++ y) = startswith old x.
Proof.
  revert x. induction old as [|o old IH]; intros [|c x] H; simpl in *;
    [reflexivity|reflexivity|lia|].
  f_equal. apply IH. lia.
Qed.

(** The leftmost occurrence of the token: the text before it stays, the
    token becomes the new text, and the replacement goes on after it. *)
Lemma replace_leftmost (old new a b : str) :
  old <> [] ->
  occurs old (a ++ removelast old) = false ->
  replace old new (a ++ old ++ b) = a ++ new ++ replace old new b.
Proof.
  intros Hold. destruct old as [|o old']; [done|]. set (old := o :: old') in *.
  induction a as [|c a IH]; intros Ha; [apply replace_at_token|].
  simpl in Ha. apply orb_false_iff in Ha as [Hc Ha].
  unfold replace in *.
  change (replace_from old new 0 ((c :: a) ++ old ++ b))
    with (if startswith old ((c :: a) ++ old ++ b)
          then new ++ replace_from old new (length old - 1) (a ++ old ++ b)
          else c :: replace_from old new 0 (a ++ old ++ b)).
  assert (Hs : startswith old ((c :: a) ++ old ++ b) = false).
  { rewrite (app_removelast_last (chr 0) Hold) at 2.
    rewrite <- app_assoc, (app_assoc (c :: a)), startswith_app_long; [exact Hc|].
    pose proof (f_equal length (app_removelast_last (chr 0) Hold)) as Hl.
    rewrite length_app in Hl. simpl in Hl. rewrite length_app. simpl. lia. }
  rewrite Hs. simpl. f_equal. exact (IH Ha).
Qed.

Lemma replace_absent (old new s : str) :
  occurs old s = false -> replace old new s = s.
Proof.
  unfold replace. induction s as [|c s IH]; [reflexivity|].
  simpl occurs. intros H. apply orb_false_iff in H as [H1 H2].
  change (replace_from old new 0 (c :: s))
    with (if startswith old (c :: s)
          then new ++ replace_from old new (length old - 1) s
          else c :: replace_from old new 0 s).
  rewrite H1. f_equal. exact (IH H2).
Qed.

Lemma occurs_single (x : char) (s : str) :
  occurs [x] s = has_code (code x) s.
Proof.
  induction s as [|c s IH]; simpl; [reflexivity|].
  unfold code_eqb. now rewrite andb_true_r, IH, N.eqb_sym.
Qed.

Lemma has_code_app (g : N) (a b : str) :
  has_code g (a ++ b) = has_code g a || has_code g b.
Proof. apply existsb_app. Qed.

Lemma has_code_take (g : N) (n : nat) (s : str) :
  has_code g (take n s) = true -> has_code g s = true.
Proof.
  revert n. induction s as [|c s IH]; intros [|n]; simpl; try discriminate.
  intros H. apply orb_true_iff in H as [H|H]; apply orb_true_iff; eauto.
Qed.

(** A replacement brings in no character that is in neither text. *)
Lemma replace_has_code (g : N) (old new : str) (k : nat) (s : str) :
  has_code g (replace_from old new k s) = true ->
  has_code g s = true \/ has_code g new = true.
Proof.
  revert k. induction s as [|c s IH]; intros k; [simpl; auto|].
  destruct k as [|k].
  - change (replace_from old new 0 (c :: s))
      with (if startswith old (c :: s)
            then new ++ replace_from old new (length old - 1) s
            else c :: replace_from old new 0 s).
    destruct (startswith old (c :: s)).
    + rewrite has_code_app. intros H. apply orb_true_iff in H as [H|H]; [auto|].
      destruct (IH _ H) as [H'|H']; [|auto]. left. simpl. now rewrite H', orb_true_r.
    + simpl. intros H. apply orb_true_iff in H as [H|H].
      * left. now rewrite H.
      * destruct (IH _ H) as [H'|H']; [|auto]. left. now rewrite H', orb_true_r.
  - simpl. intros H. destruct (IH _ H) as [H'|H']; [|auto].
    left. now rewrite H', orb_true_r.
Qed.

(** Replacing a one-character glyph by a text without it removes it. *)
Lemma replace_glyph_gone (x : char) (new s : str) :
  has_code (code x) new = false ->
  has_code (code x) (replace [x] new s) = false.
Proof.
  intros Hn. unfold replace. induction s as [|c s IH]; [reflexivity|].
  simpl. unfold code_eqb. rewrite andb_true_r.
  destruct (code x =? code c)%N eqn:E.
  - now rewrite has_code_app, Hn, IH.
  - simpl. rewrite IH, orb_false_r. now rewrite N.eqb_sym.
Qed.

(** *** The factorial pattern *)

Lemma star_match_none {A} (p : char -> bool) (s : str)
    (k : option char -> str -> option A) :
  (forall q t, t `suffix_of` s -> k q t = None) ->
  forall prev, star_match p prev s k = None.
Proof.
  induction s as [|c s IH]; intros Hk prev; simpl.
  - now apply Hk.
  - assert (Hs : k prev (c :: s) = None) by now apply Hk.
    destruct (p c); [|exact Hs].
    rewrite IH; [exact Hs|]. intros q t Ht. apply Hk. now apply suffix_cons_r.
Qed.

(** A match needs its continuation to succeed on some rest of the input. *)
Lemma rmatch_none {A} (r : regex) :
  forall (s : str) (k : option char -> str -> option A),
  (forall q t, t `suffix_of` s -> k q t = None) ->
  forall prev, rmatch r prev s k = None.
Proof.
  induction r as [c|p| |p|r1 IH1 r2 IH2|r1 IH1 r2 IH2|r IH]; intros s k Hk prev; simpl.
  - destruct s as [|x s]; [reflexivity|].
    destruct (code x =? c)%N; [|reflexivity]. apply Hk. now apply suffix_cons_r.
  - destruct s as [|x s]; [reflexivity|].
    destruct (p x); [|reflexivity]. apply Hk. now apply suffix_cons_r.
  - destruct (xorb _ _); [|reflexivity]. now apply Hk.
  - now apply star_match_none.
  - apply IH1. intros q t Ht. apply IH2. intros q' t' Ht'. apply Hk.
    now transitivity t.
  - now rewrite IH1, IH2.
  - rewrite IH by done. now apply Hk.
Qed.

Lemma has_code_suffix (g : N) (t s : str) :
  t `suffix_of` s -> has_code g s = false -> has_code g t = false.
Proof.
  intros [l ->]. rewrite has_code_app. intros H. now apply orb_false_iff in H as [_ H].
Qed.

Lemma bang_none (s : str) :
  has_code 33 s = false -> forall q t, t `suffix_of` s -> bang q t = None.
Proof.
  intros Hs q t Ht. pose proof (has_code_suffix _ _ _ Ht Hs) as H.
  destruct t as [|x t]; [reflexivity|]. simpl in *.
  apply orb_false_iff in H as [-> _]. reflexivity.
Qed.

Lemma sub_from_here (prev : option char) (c : char) (s : str) :
  sub_from prev O (c :: s)
  = match rmatch factorial_target prev (c :: s) bang with
    | Some (after_group, after_match) =>
        factorial_call (take (length (c :: s) - length after_group) (c :: s))
        ++ sub_from (Some c) (length (c :: s) - length after_match - 1) s
    | None => c :: sub_from (Some c) O s
    end.
Proof. reflexivity. Qed.

(** Without a [!] nothing is rewritten. *)
Lemma sub_factorial_absent (s : str) :
  has_code 33 s = false -> sub_factorial s = s.
Proof.
  unfold sub_factorial. generalize (@None char).
  induction s as [|c s IH]; intros prev Hs; [reflexivity|].
  rewrite sub_from_here, (rmatch_none factorial_target (c :: s) bang (bang_none _ Hs)).
  f_equal. apply IH. simpl in Hs. now apply orb_false_iff in Hs as [_ Hs].
Qed.

(** The rewriting brings in the characters of the call it writes, and no
    other. *)
Lemma sub_has_code (g : N) (s : str) :
  has_code g (py "math.factorial(int())") = false ->
  forall prev k, has_code g (sub_from prev k s) = true -> has_code g s = true.
Proof.
  intros Hg.
  assert (Hg1 : has_code g (py "math.factorial(int(") = false).
  { change (py "math.factorial(int())") with (py "math.factorial(int(" ++ py "))") in Hg.
    rewrite has_code_app in Hg. now apply orb_false_iff in Hg as [Hg _]. }
  assert (Hg2 : has_code g (py "))") = false).
  { change (py "math.factorial(int())") with (py "math.factorial(int(" ++ py "))") in Hg.
    rewrite has_code_app in Hg. now apply orb_false_iff in Hg as [_ Hg]. }
  induction s as [|c s IH]; intros prev k; [done|].
  destruct k as [|k].
  - rewrite sub_from_here.
    destruct (rmatch factorial_target prev (c :: s) bang) as [[a b]|].
    + unfold factorial_call. rewrite !has_code_app, Hg1, Hg2, orb_false_r. simpl orb.
      intros H. apply orb_true_iff in H as [H|H].
      * exact (has_code_take _ _ _ H).
      * apply IH in H. simpl. now rewrite H, orb_true_r.
    + simpl. intros H. apply orb_true_iff in H as [H|H]; [now rewrite H|].
      apply IH in H. now rewrite H, orb_true_r.
  - simpl. intros H. apply IH in H. now rewrite H, orb_true_r.
Qed.

(** *** Translation *)

Lemma prepare_expression_steps (self : TI84Engine) (expression : str) :
  prepare_expression self expression
  = match strip expression with
    | [] => Raise (TI84Error (py "ERROR: SYNTAX"))
    | expr =>
        Ret (sub_factorial
              (replace (py "√") (py "sqrt")
                (replace (py "÷") (py "/")
                  (replace (py "×") (py "*")
                    (replace (py "^") (py "**")
                      (replace (py "Ans") (ans_text self) expr))))))
    end.
Proof. unfold prepare_expression. now destruct (strip expression). Qed.

(** C6. The pass starts by replacing [Ans]: the text [a] before the
    leftmost [Ans] stays, that [Ans] becomes the value of the last history
    entry, or [0] when the history is empty, the text after it is treated
    the same way, and the other rewritings work on the result.
    After [evaluate("3+4")], [evaluate("Ans*2")] returns 14. *)
Theorem C6_previous_answer (self : TI84Engine) (a b : str) :
  occurs (py "Ans") (a ++ py "An") = false ->
  replace (py "Ans") (ans_text self) (a ++ py "Ans" ++ b)
  = a ++ ans_text self ++ replace (py "Ans") (ans_text self) b
  /\ (forall expression c t, strip expression = c :: t ->
      prepare_expression self expression
      = Ret (sub_factorial
              (replace (py "√") (py "sqrt")
                (replace (py "÷") (py "/")
                  (replace (py "×") (py "*")
                    (replace (py "^") (py "**")
                      (replace (py "Ans") (ans_text self) (c :: t))))))))
  /\ (history self = [] -> ans_text self = py "0")
  /\ (forall h r, history self = h ++ [r] -> ans_text self = value r)
  /\ (let r1 := mkResult (py "3+4") (py "7") in
      let r2 := mkResult (py "Ans*2") (py "14") in
      evaluate (py "3+4") new_engine = (Ret r1, mkEngine 20 fzero [r1])
      /\ evaluate (py "Ans*2") (mkEngine 20 fzero [r1]) = (Ret r2, mkEngine 20 fzero [r1; r2])).
Proof.
  intros Ha. split; [|split; [|split; [|split]]].
  - apply replace_leftmost; [discriminate|exact Ha].
  - intros expression c t H. now rewrite prepare_expression_steps, H.
  - unfold ans_text. now intros ->.
  - unfold ans_text. intros h r ->. now rewrite last_snoc.
  - split; run_python.
Qed.

Lemma C6_witness :
  replace (py "Ans") (py "7") (py "2*Ans+Ans") = py "2*7+7".
Proof.
  destruct (C6_previous_answer (mkEngine 20 fzero [mkResult (py "3+4") (py "7")])
              (py "2*") (py "+Ans")) as [H _].
  - reflexivity.
  - exact H.
Defined.

Lemma replace_keeps_absent (g : N) (old new s : str) :
  has_code g s = false -> has_code g new = false ->
  has_code g (replace old new s) = false.
Proof.
  intros Hs Hn. destruct (has_code g (replace old new s)) eqn:H; [|reflexivity].
  apply replace_has_code in H as [H|H]; congruence.
Qed.

Lemma sub_keeps_absent (g : N) (s : str) :
  has_code g (py "math.factorial(int())") = false ->
  has_code g s = false -> has_code g (sub_factorial s) = false.
Proof.
  intros Hg Hs. destruct (has_code g (sub_factorial s)) eqn:H; [|reflexivity].
  apply (sub_has_code g s Hg) in H. congruence.
Qed.

(** C9, as the code has it. A pass leaves none of the four operator glyphs;
    on a text without calculator notation (no operator glyph, no [!], no
    [Ans]) and without whitespace around it, a pass changes nothing. *)
Theorem C9_translation (self : TI84Engine) :
  (forall e out, prepare_expression self e = Ret out -> no_operator_glyph out = true)
  /\ (forall s, canonical s = true -> strip s = s -> s <> [] ->
      prepare_expression self s = Ret s).
Proof.
  split.
  - intros e out. rewrite prepare_expression_steps.
    destruct (strip e) as [|c t]; [discriminate|]. intros [= <-].
    set (e1 := replace (py "Ans") (ans_text self) (c :: t)).
    set (e2 := replace (py "^") (py "**") e1).
    set (e3 := replace (py "×") (py "*") e2).
    set (e4 := replace (py "÷") (py "/") e3).
    set (e5 := replace (py "√") (py "sqrt") e4).
    assert (H2 : has_code 94 e2 = false)
      by exact (replace_glyph_gone (chr 94) (py "**") e1 eq_refl).
    assert (H3 : has_code 215 e3 = false)
      by exact (replace_glyph_gone (chr 215) (py "*") e2 eq_refl).
    assert (H4 : has_code 247 e4 = false)
      by exact (replace_glyph_gone (chr 247) (py "/") e3 eq_refl).
    assert (H5 : has_code 8730 e5 = false)
      by exact (replace_glyph_gone (chr 8730) (py "sqrt") e4 eq_refl).
    assert (A1 : has_code 94 (sub_factorial e5) = false).
    { apply sub_keeps_absent; [reflexivity|].
      do 3 (apply replace_keeps_absent; [|reflexivity]). exact H2. }
    assert (A2 : has_code 215 (sub_factorial e5) = false).
    { apply sub_keeps_absent; [reflexivity|].
      do 2 (apply replace_keeps_absent; [|reflexivity]). exact H3. }
    assert (A3 : has_code 247 (sub_factorial e5) = false).
    { apply sub_keeps_absent; [reflexivity|].
      apply replace_keeps_absent; [exact H4|reflexivity]. }
    assert (A4 : has_code 8730 (sub_factorial e5) = false).
    { apply sub_keeps_absent; [reflexivity|exact H5]. }
    unfold no_operator_glyph, operator_glyphs. cbn [forallb].
    now rewrite A1, A2, A3, A4.
  - intros s Hc Hs Hne. rewrite prepare_expression_steps, Hs.
    destruct s as [|c t]; [done|].
    unfold canonical, no_operator_glyph, operator_glyphs in Hc. cbn [forallb] in Hc.
    repeat match goal with H : _ && _ = true |- _ => apply andb_true_iff in H as [? ?] end.
    repeat match goal with H : negb _ = true |- _ => apply negb_true_iff in H end.
    rewrite (replace_absent (py "Ans")) by done.
    rewrite (replace_absent (py "^")) by (change (py "^") with [chr 94]; now rewrite occurs_single).
    rewrite (replace_absent (py "×")) by (change (py "×") with [chr 215]; now rewrite occurs_single).
    rewrite (replace_absent (py "÷")) by (change (py "÷") with [chr 247]; now rewrite occurs_single).
    rewrite (replace_absent (py "√")) by (change (py "√") with [chr 8730]; now rewrite occurs_single).
    now rewrite sub_factorial_absent.
Qed.

Lemma C9_witness :
  no_operator_glyph (py "2**3*sqrt(4)") = true
  /\ prepare_expression new_engine (py "2**3*sqrt(4)") = Ret (py "2**3*sqrt(4)").
Proof.
  destruct (C9_translation new_engine) as [H1 H2]. split.
  - apply (H1 (py " 2^3×√(4)")). run_python.
  - apply H2; [run_python|run_python|discriminate].
Defined.

(** C9 as stated fails: [5!!] keeps a [!] after the pass, and the pass
    turns [An√] into [Ansqrt], which a second pass turns into [0qrt]. *)
Lemma C9_pass_is_not_idempotent :
  prepare_expression new_engine (py "5!!") = Ret (py "math.factorial(int(5))!")
  /\ canonical (py "math.factorial(int(5))!") = false
  /\ prepare_expression new_engine (py "An√") = Ret (py "Ansqrt")
  /\ prepare_expression new_engine (py "Ansqrt") = Ret (py "0qrt")
  /\ ~ (forall self e out, prepare_expression self e = Ret out ->
          canonical out = true /\ prepare_expression self out = Ret out).
Proof.
  split; [run_python|split; [run_python|split; [run_python|split; [run_python|]]]].
  intros H. destruct (H new_engine (py "5!!") _ eq_refl) as [Hc _].
  vm_compute in Hc. discriminate.
Qed.

(** *** The namespace of [_safe_eval] *)


Lemma dict_update_Some {V} (items : list (list N * V)) (d : gmap (list N) V)
    (k : list N) (v : V) :
  dict_update d items !! k = Some v -> d !! k = Some v \/ (k, v) ∈ items.
Proof.
  unfold dict_update. revert d. induction items as [|[k' v'] items IH]; intros d; simpl.
  - auto.
  - intros H. apply IH in H as [H|H]; [|right; now right].
    apply lookup_insert_Some in H as [[<- <-]|[_ H]]; [right; left|auto].
Qed.

Lemma dict_update_nil {V} (d : gmap (list N) V) : dict_update d [] = d.
Proof. reflexivity. Qed.












(** *** More on [evaluate] and on sampling *)

(** Whatever goes wrong in it, [evaluate] raises a [TI84Error] with one of
    its four messages, or it lets through what [_safe_eval] raised, and
    that is no [Exception] then (so it is for [SystemExit]): the last
    clause of [evaluate] is [except Exception]. *)
Theorem evaluate_raises_classified (entered : str) (self self' : TI84Engine) (e : exn) :
  evaluate entered self = (Raise e, self') ->
  e = TI84Error (py "ERROR: SYNTAX") \/ e = TI84Error (py "ERROR: DIVIDE BY 0")
  \/ e = TI84Error (py "ERROR: MATH") \/ e = TI84Error (py "ERROR: OVERFLOW")
  \/ (is_Exception e = false
      /\ exists cleaned, prepare_expression self entered = Ret cleaned
                         /\ _safe_eval self cleaned [] = Raise e).
Proof.
  unfold evaluate, m_bind, m_read, m_try, m_ret.
  destruct (prepare_expression self entered) as [cleaned|e0|] eqn:Hp.
  - destruct (_safe_eval self cleaned []) as [result|e1|] eqn:He.
    + destruct (format_result_returns result) as [result_str ->].
      destruct (append_history_returns entered result_str self) as [s ->].
      discriminate.
    + intros [= <- <-].
      destruct e1; simpl; try tauto.
      do 4 right. split; [reflexivity|]. now exists cleaned.
    + discriminate.
  - intros [= <- <-]. rewrite prepare_expression_steps in Hp.
    destruct (strip entered); [|discriminate]. injection Hp as <-. now left.
  - discriminate.
Qed.

Lemma evaluate_raises_classified_witness :
  (let e := TI84Error (py "ERROR: MATH") in
   e = TI84Error (py "ERROR: SYNTAX") \/ e = TI84Error (py "ERROR: DIVIDE BY 0")
   \/ e = TI84Error (py "ERROR: MATH") \/ e = TI84Error (py "ERROR: OVERFLOW")
   \/ (is_Exception e = false
       /\ exists cleaned, prepare_expression new_engine (py "sqrt(-1)") = Ret cleaned
                          /\ _safe_eval new_engine cleaned [] = Raise e))
  /\ (let e := SystemExit in
      e = TI84Error (py "ERROR: SYNTAX") \/ e = TI84Error (py "ERROR: DIVIDE BY 0")
      \/ e = TI84Error (py "ERROR: MATH") \/ e = TI84Error (py "ERROR: OVERFLOW")
      \/ (is_Exception e = false
          /\ exists cleaned,
               prepare_expression new_engine (py "abs.__self__.exit(3)") = Ret cleaned
               /\ _safe_eval new_engine cleaned [] = Raise e)).
Proof.
  split; intros e.
  - apply (evaluate_raises_classified (py "sqrt(-1)") new_engine new_engine e).
    run_python.
  - apply (evaluate_raises_classified (py "abs.__self__.exit(3)") new_engine new_engine e).
    run_python.
Defined.



(** An empty or all-whitespace expression is an [ERROR: SYNTAX]. *)
Theorem empty_expression_is_syntax_error (self : TI84Engine) (expression : str) :
  forallb isspace expression = true ->
  prepare_expression self expression = Raise (TI84Error (py "ERROR: SYNTAX"))
  /\ evaluate expression self = (Raise (TI84Error (py "ERROR: SYNTAX")), self).
Proof.
  intros H. apply strip_nil in H.
  assert (Hp : prepare_expression self expression = Raise (TI84Error (py "ERROR: SYNTAX")))
    by now rewrite prepare_expression_steps, H.
  split; [exact Hp|]. unfold evaluate, m_bind, m_read. now rewrite Hp.
Qed.

Lemma empty_expression_witness :
  evaluate (py "  ") new_engine = (Raise (TI84Error (py "ERROR: SYNTAX")), new_engine).
Proof. apply (empty_expression_is_syntax_error new_engine (py "  ")). reflexivity. Defined.

(** Where every sample returns a value or raises a [TI84Error],
    [_evaluate_series] returns one value for each point, NaN for each
    [TI84Error]. *)
Theorem evaluate_series_with_ti84_errors (self : GraphingEngine) (expression : str)
    (xs : list float) :
  Forall (fun x => match evaluate_function (calculator self) expression x with
                   | Ret _ | Raise (TI84Error _) => True
                   | _ => False
                   end) xs ->
  _evaluate_series self expression xs
  = Ret (List.map (fun x => match evaluate_function (calculator self) expression x with
                            | Ret y => y
                            | _ => nan
                            end) xs).
Proof.
  induction 1 as [|x xs Hx _ IH]; [reflexivity|].
  simpl. rewrite IH.
  destruct (evaluate_function (calculator self) expression x) as [y|[]|]; done.
Qed.

Lemma evaluate_series_witness :
  _evaluate_series (new_graphing new_engine) (py "x*x+y") [float_of_Z 1; float_of_Z 2]
  = Ret [nan; nan].
Proof.
  rewrite evaluate_series_with_ti84_errors; [reflexivity|].
  constructor; [vm_compute; exact I|].
  constructor; [vm_compute; exact I|].
  constructor.
Defined.

(** *** Intersections *)

Lemma crossing_length (last : option (float * float * float)) (x y d : float)
    (found : list (float * float)) :
  crossing last x y d = Ret found ->
  (length found <= 1)%nat /\ (last = None -> found = []).
Proof.
  unfold crossing. destruct last as [[[ld lx] ly]|]; [|intros [= <-]; auto].
  destruct (is_zero d); [intros [= <-]; simpl; split; [lia|discriminate]|].
  destruct (xorb _ _); [|intros [= <-]; simpl; split; [lia|discriminate]].
  destruct (float_truediv _ _); simpl; [|discriminate..].
  intros [= <-]. simpl. split; [lia|discriminate].
Qed.

Lemma find_from_length (self : GraphingEngine) (a b : str) (xs : list float) :
  forall last l, find_from self a b last xs = Ret l ->
  (length l <= length xs)%nat /\ (last = None -> (length l <= length xs - 1)%nat).
Proof.
  induction xs as [|x xs IH]; intros last l; simpl.
  - intros [= <-]. simpl. split; lia.
  - destruct (sample_pair self a b x) as [[y_a y_b]|[]|]; try discriminate.
    + destruct (isnan _ || isinf _).
      * intros H. destruct (IH _ _ H) as [H1 H2]. split; [lia|].
        intros Hl. specialize (H2 Hl). lia.
      * destruct (crossing last x y_a (fsub y_a y_b)) as [found| |] eqn:Hc;
          simpl; [|discriminate..].
        destruct (find_from self a b _ xs) as [rest| |] eqn:Hr; simpl; [|discriminate..].
        intros [= <-]. destruct (crossing_length _ _ _ _ _ Hc) as [H1 H2].
        destruct (IH _ _ Hr) as [H3 _]. rewrite length_app. split; [lia|].
        intros Hl. rewrite (H2 Hl). simpl. lia.
    + intros H. destruct (IH _ _ H) as [H1 H2]. split; [lia|].
      intros Hl. specialize (H2 Hl). lia.
Qed.

(** Every intersection lies between two samples: a domain of [n] points
    gives at most [n - 1] of them, and none when it has at most one point. *)
Theorem find_intersections_count (self : GraphingEngine) (a b : str) (xs : list float)
    (l : list (float * float)) :
  _find_intersections self a b xs = Ret l ->
  (length l <= length xs - 1)%nat.
Proof. intros H. now apply (find_from_length self a b xs None l H). Qed.

Lemma find_intersections_count_witness :
  let l := [(float_of_Z (-2), float_of_Z 4); (float_of_Z 2, float_of_Z 4);
            (float_of_Z 2, float_of_Z 4)] in
  (length l <= 7 - 1)%nat.
Proof.
  intros l.
  apply (find_intersections_count (new_graphing new_engine) (py "x*x") (py "4")
           (List.map float_of_Z [-3; -2; -1; 0; 1; 2; 3]) l).
  run_python.
Defined.

Lemma flt_asym (a b : float) : flt a b = true -> flt b a = false.
Proof.
  intros H. apply flt_not_fge in H. revert H.
  unfold fge, fle, flt, SFleb, SFltb. now destruct (SFcompare b a) as [[]|].
Qed.

Lemma flt_not_zero (a b : float) : flt a b = true -> is_zero a && is_zero b = false.
Proof. destruct a, b; simpl; try reflexivity. discriminate. Qed.

Lemma no_crossing_from (above : bool) (self : GraphingEngine) (a b : str) (xs : list float) :
  Forall (sample_on_side above self a b) xs ->
  forall last,
  match last with
  | Some (ld, _, _) => if above then flt fzero ld = true else flt ld fzero = true
  | None => True
  end ->
  find_from self a b last xs = Ret [].
Proof.
  induction 1 as [|x xs Hx _ IH]; intros last Hl; [reflexivity|].
  simpl. unfold sample_on_side in Hx.
  destruct (sample_pair self a b x) as [[y_a y_b]|[]|]; try done; [|now apply IH].
  set (d := fsub y_a y_b) in *.
  destruct (isnan d || isinf d); [now apply IH|].
  assert (Hc : crossing last x y_a d = Ret []).
  { unfold crossing. destruct last as [[[ld lx] ly]|]; [|reflexivity].
    destruct above.
    - pose proof (flt_not_zero _ _ Hx) as Hz. simpl in Hz.
      rewrite Hz, Hx, Hl. reflexivity.
    - pose proof (flt_not_zero _ _ Hx) as Hz. rewrite andb_true_r in Hz.
      rewrite Hz, (flt_asym _ _ Hx), (flt_asym _ _ Hl). reflexivity. }
  rewrite Hc. simpl. rewrite (IH (Some (d, x, y_a))); [reflexivity|exact Hx].
Qed.

(** No false crossing: when at every sample that is used the first curve is
    above the second (or at every one below it), and no sample raises
    anything but a [TI84Error], no intersection is reported. *)
Theorem no_crossing_on_one_side (above : bool) (self : GraphingEngine) (a b : str)
    (xs : list float) :
  Forall (sample_on_side above self a b) xs ->
  _find_intersections self a b xs = Ret [].
Proof. intros H. now apply (no_crossing_from above self a b xs H None). Qed.

Lemma no_crossing_witness :
  _find_intersections (new_graphing new_engine) (py "x*x+1") (py "0-y")
    (List.map float_of_Z [-2; -1; 0; 1; 2]) = Ret []
  /\ _find_intersections (new_graphing new_engine) (py "x*x+1") (py "x")
    (List.map float_of_Z [-2; -1; 0; 1; 2]) = Ret [].
Proof.
  split; apply (no_crossing_on_one_side true);
    repeat (constructor; [vm_compute; reflexivity || exact I|]); constructor.
Defined.

Lemma fsub_diag (y : float) : finite y -> fsub y y = fzero.
Proof.
  destruct y as [[]| | |s m e]; try done. intros _.
  unfold fsub, SFsub. set (v := cond_Zopp s _).
  change (binary_normalize 53 1024 (v - v) (Z.min e e) false = fzero).
  now rewrite Z.sub_diag.
Qed.

Lemma same_curve_from (self : GraphingEngine) (a : str) (xs : list float) :
  Forall (fun x => finite (curve_at self a x)) xs ->
  forall last,
  find_from self a a last xs
  = Ret (match last with
         | Some _ => List.map (fun x => (x, curve_at self a x)) xs
         | None => tail (List.map (fun x => (x, curve_at self a x)) xs)
         end).
Proof.
  induction 1 as [|x xs Hx _ IH]; intros last; [now destruct last|].
  simpl. unfold sample_pair. unfold curve_at in Hx |- * at 1 3.
  destruct (evaluate_function (calculator self) a x) as [y| |]; try done. simpl.
  rewrite (fsub_diag y Hx). simpl. rewrite IH.
  destruct last as [[[ld lx] ly]|]; reflexivity.
Qed.

(** A curve compared with itself: where it has a finite value at every
    sample, every sample but the first is reported, with the value there. *)
Theorem same_curve_meets_everywhere (self : GraphingEngine) (a : str) (xs : list float) :
  Forall (fun x => finite (curve_at self a x)) xs ->
  _find_intersections self a a xs
  = Ret (tail (List.map (fun x => (x, curve_at self a x)) xs)).
Proof. intros H. exact (same_curve_from self a xs H None). Qed.

Lemma same_curve_witness :
  _find_intersections (new_graphing new_engine) (py "x*x") (py "x*x")
    (List.map float_of_Z [1; 2; 3])
  = Ret [(float_of_Z 2, float_of_Z 4); (float_of_Z 3, float_of_Z 9)].
Proof.
  rewrite same_curve_meets_everywhere; [run_python|].
  repeat (constructor; [vm_compute; exact I|]); constructor.
Defined.

(** Samples that are passed over play no part: the result is the one for the
    domain without them, whatever happens at the other samples. *)
Theorem passed_over_samples_ignored (self : GraphingEngine) (a b : str) (xs : list float) :
  _find_intersections self a b xs
  = _find_intersections self a b (List.filter (fun x => negb (passed_over self a b x)) xs).
Proof.
  unfold _find_intersections. generalize (@None (float * float * float)).
  induction xs as [|x xs IH]; intros last; [reflexivity|].
  simpl. unfold passed_over at 1.
  destruct (sample_pair self a b x) as [[y_a y_b]|[]|] eqn:Hs; simpl;
    rewrite ?Hs; try reflexivity; try apply IH.
  destruct (isnan (fsub y_a y_b) || isinf (fsub y_a y_b)) eqn:Hn; simpl.
  - apply IH.
  - rewrite Hs, Hn. now rewrite IH.
Qed.

(** *** The window invariant *)

Lemma not_fge_flt (a b : float) :
  isnan a = false -> isnan b = false -> fge a b = false -> flt a b = true.
Proof.
  unfold fge, fle, flt, SFleb, SFltb. rewrite (SFcompare_swap a b).
  destruct a as [[]|[]| |[]], b as [[]|[]| |[]]; simpl; try done;
    intros _ _; destruct (_ ?= _); simpl; try done;
    destruct (Pos.compare_cont _ _ _); simpl; done.
Qed.

(** Bounds without a NaN: [set_window] returns exactly when they are
    increasing, and a window with increasing bounds stays so; the default
    window, to which [auto_window] goes back, has increasing bounds.  A NaN
    as a bound passes the check: it is stored, and the window is then not
    increasing. *)
Theorem window_stays_increasing (self : GraphingEngine) (x0 x1 y0 y1 : float) :
  (isnan x0 || isnan x1 || isnan y0 || isnan y1 = false ->
     ((set_window x0 x1 y0 y1 self).1 = Ret tt <-> window_ok (mkWindow x0 x1 y0 y1))
     /\ (window_ok (window self) -> window_ok (window (set_window x0 x1 y0 y1 self).2)))
  /\ window_ok (window (auto_window self).2)
  /\ (flt y0 y1 = true ->
      window (set_window nan x1 y0 y1 self).2 = mkWindow nan x1 y0 y1
      /\ ~ window_ok (mkWindow nan x1 y0 y1)).
Proof.
  split; [|split].
  - intros Hn. repeat (apply orb_false_iff in Hn as [Hn ?]).
    unfold set_window, window_ok. simpl.
    destruct (fge x0 x1) eqn:Hx; simpl.
    { split; [split; [discriminate|]|auto].
      intros [Hlt _]. apply flt_not_fge in Hlt. congruence. }
    destruct (fge y0 y1) eqn:Hy; simpl.
    { split; [split; [discriminate|]|auto].
      intros [_ Hlt]. apply flt_not_fge in Hlt. congruence. }
    assert (flt x0 x1 = true /\ flt y0 y1 = true) by (split; now apply not_fge_flt).
    tauto.
  - split; reflexivity.
  - intros Hy. unfold set_window.
    replace (fge nan x1) with false by (unfold fge, fle, SFleb; now destruct x1).
    rewrite (flt_not_fge _ _ Hy). simpl.
    split; [reflexivity|]. intros [H _]. discriminate.
Qed.

Lemma window_stays_increasing_witness :
  let self := new_graphing new_engine in
  window_ok (window (set_window (float_of_Z 3) (float_of_Z 1) (float_of_Z 0) (float_of_Z 1) self).2)
  /\ window (set_window nan (float_of_Z 1) (float_of_Z 0) (float_of_Z 1) self).2
     = mkWindow nan (float_of_Z 1) (float_of_Z 0) (float_of_Z 1).
Proof.
  intros self. split.
  - destruct (window_stays_increasing self (float_of_Z 3) (float_of_Z 1)
                (float_of_Z 0) (float_of_Z 1)) as [H _].
    destruct (H eq_refl) as [_ H2]. apply H2. split; reflexivity.
  - destruct (window_stays_increasing self (float_of_Z 0) (float_of_Z 1)
                (float_of_Z 0) (float_of_Z 1)) as (_ & _ & H).
    destruct (H eq_refl) as [H3 _]. exact H3.
Defined.

(** *** The memory *)

Lemma dict_update_other {V} (items : list (list N * V)) (d : gmap (list N) V) (k : list N) :
  k ∉ items.*1 -> dict_update d items !! k = d !! k.
Proof.
  unfold dict_update. revert d. induction items as [|[k' v] items IH]; intros d; simpl.
  - reflexivity.
  - rewrite not_elem_of_cons. simpl. intros [Hk Hi].
    rewrite IH by exact Hi. now apply lookup_insert_ne.
Qed.

Lemma allowed_names_M (self : TI84Engine) (extra : list (list N * pyvalue)) :
  key "M" ∉ extra.*1 -> allowed_names self extra !! key "M" = Some (VFloat (memory self)).
Proof.
  intros Hk. unfold allowed_names. rewrite dict_update_other by exact Hk.
  now rewrite lookup_insert_eq.
Qed.

(** Where [evaluate] returns or raises, it leaves the memory and the
    capacity as they were; the memory operations never touch the history. *)
Theorem evaluate_keeps_memory (entered : str) (self self' : TI84Engine)
    (o : outcome EvaluationResult) (x : float) :
  evaluate entered self = (o, self') ->
  o <> Stuck ->
  memory self' = memory self
  /\ history_limit self' = history_limit self
  /\ history (add_to_memory x self).2 = history self
  /\ history (subtract_from_memory x self).2 = history self
  /\ history (clear_memory self).2 = history self.
Proof.
  intros Hev Ho.
  assert (H : memory self' = memory self /\ history_limit self' = history_limit self).
  { revert Hev. unfold evaluate, m_bind, m_read, m_try, m_ret.
    destruct (prepare_expression self entered) as [cleaned| |]; [|now intros [= _ <-]..].
    destruct (_safe_eval self cleaned []) as [result| |]; [|now intros [= _ <-]..].
    destruct (_format_result result) as [result_str| |]; [|now intros [= _ <-]..].
    rewrite append_history_state. intros [= _ <-]. simpl. now destruct (_ <? _). }
  destruct H as [H1 H2]. repeat split; assumption.
Qed.

Lemma evaluate_keeps_memory_witness :
  memory (evaluate (py "M+1") (mkEngine 20 (float_of_Z 5) [])).2 = float_of_Z 5.
Proof.
  destruct (evaluate_keeps_memory (py "M+1") (mkEngine 20 (float_of_Z 5) [])
              (mkEngine 20 (float_of_Z 5) [mkResult (py "M+1") (py "6")])
              (Ret (mkResult (py "M+1") (py "6"))) fzero) as [H _];
    [run_python|discriminate|].
  exact H.
Defined.

(** The name [M] stands for the memory in every evaluation whose extra
    bindings leave it alone; after [clear_memory] and [add_to_memory(x)],
    for an [x] other than the negative zero, [recall_memory] returns [x] and
    [M] evaluates to [x]. *)
Theorem memory_is_M (self : TI84Engine) (x : float) (extra : list (list N * pyvalue)) :
  key "M" ∉ extra.*1 ->
  x <> S754_zero true ->
  _safe_eval self (py "M") extra = Ret (memory self)
  /\ (let stored := (add_to_memory x (clear_memory self).2).2 in
      (recall_memory stored).1 = Ret x
      /\ _safe_eval stored (py "M") extra = Ret x).
Proof.
  intros Hk Hx.
  assert (HM : forall s, _safe_eval s (py "M") extra = Ret (memory s)).
  { intros s. unfold _safe_eval, py_eval.
    change (parse (py "M")) with (Some (EName (py "M"))). cbn [eval_expr].
    change (key_of (py "M")) with (key "M").
    now rewrite (allowed_names_M s extra Hk). }
  split; [apply HM|].
  assert (Hs : memory (add_to_memory x (clear_memory self).2).2 = x).
  { simpl. unfold fadd. destruct x as [[]| | |]; try reflexivity. now destruct Hx. }
  simpl. split; [now rewrite <- Hs at 2|]. rewrite HM. now f_equal.
Qed.

Lemma memory_is_M_witness :
  _safe_eval (add_to_memory (float_of_Z 5) (clear_memory new_engine).2).2 (py "M") []
  = Ret (float_of_Z 5).
Proof.
  destruct (memory_is_M new_engine (float_of_Z 5) []) as [_ [_ H]];
    [apply not_elem_of_nil|discriminate|exact H].
Defined.

(** *** More on equation slots *)

Lemma lstrip_id (s : str) :
  (forall c t, s = c :: t -> isspace c = false) -> lstrip s = s.
Proof.
  destruct s as [|c t]; [reflexivity|]. intros H. simpl. now rewrite (H c t eq_refl).
Qed.

(** Trimming twice is trimming once. *)
Lemma strip_strip (s : str) : strip (strip s) = strip s.
Proof.
  destruct (strip_spec s) as (_ & Hh & Hl).
  unfold strip at 1. rewrite (lstrip_id (strip s)) by exact Hh.
  rewrite (lstrip_id (rev (strip s))) by exact Hl. apply rev_involutive.
Qed.

(** [set_equation] changes the slot of its label and nothing else: the other
    slots, the window and the calculator stay; a second call with the same
    arguments, or with the text already trimmed, changes nothing more; and
    two calls for different labels give the same slots in either order. *)
Theorem set_equation_frame (self : GraphingEngine) (label e : str) :
  let self' := (set_equation label e self).2 in
  (forall k, k <> key_of label -> get_equations self' !! k = get_equations self !! k)
  /\ window self' = window self
  /\ calculator self' = calculator self
  /\ (set_equation label e self').2 = self'
  /\ (set_equation label (strip e) self).2 = self'
  /\ (forall label2 e2, key_of label2 <> key_of label ->
      get_equations (set_equation label2 e2 self').2
      = get_equations (set_equation label e (set_equation label2 e2 self).2).2).
Proof.
  unfold set_equation, m_assign, get_equations. rewrite strip_strip.
  destruct (strip e) as [|c t] eqn:He; simpl;
    (split; [|split; [reflexivity|split; [reflexivity|split; [|split; [reflexivity|]]]]]).
  - intros k Hk. now apply lookup_delete_ne.
  - unfold set_equations. simpl. now rewrite delete_delete_eq.
  - intros label2 e2 Hne. destruct (strip e2); simpl.
    + apply delete_delete.
    + symmetry. apply delete_insert_ne. congruence.
  - intros k Hk. now apply lookup_insert_ne.
  - unfold set_equations. simpl. now rewrite insert_insert_eq.
  - intros label2 e2 Hne. destruct (strip e2); simpl.
    + now apply delete_insert_ne.
    + now apply insert_insert_ne.
Qed.

Lemma set_equation_frame_witness :
  get_equations (set_equation (py "Y2") (py " x ")
                   (set_equation (py "Y1") (py "x*x") (new_graphing new_engine)).2).2
  = get_equations (set_equation (py "Y1") (py "x*x")
                     (set_equation (py "Y2") (py " x ") (new_graphing new_engine)).2).2.
Proof.
  destruct (set_equation_frame (new_graphing new_engine) (py "Y1") (py "x*x"))
    as (_ & _ & _ & _ & _ & H).
  apply (H (py "Y2") (py " x ")). discriminate.
Defined.

(** *** The keys of the calculator *)

Lemma evaluate_returns_state (entered : str) (self self' : TI84Engine)
    (r : EvaluationResult) :
  evaluate entered self = (Ret r, self') ->
  r = mkResult entered (value r)
  /\ self' = (_append_history entered (value r) self).2.
Proof.
  unfold evaluate, m_bind, m_read, m_try, m_ret.
  destruct (prepare_expression self entered) as [cleaned| |]; [|discriminate..].
  destruct (_safe_eval self cleaned []) as [result| |]; [|discriminate..].
  destruct (_format_result result) as [result_str| |]; [|discriminate..].
  destruct (_append_history entered result_str self) as [[[]| |] s] eqn:Ha;
    [|discriminate..].
  intros [= <- <-]. simpl. now rewrite Ha.
Qed.

Lemma py_index_in_range {A} (l : list A) (i : Z) :
  0 <= i < Z.of_nat (length l) -> is_Some (CalculatorUI.py_index l i).
Proof.
  intros H. unfold CalculatorUI.py_index.
  destruct (Z.ltb_spec i 0); [lia|].
  destruct (Z.leb_spec 0 i); [|lia].
  destruct (Z.ltb_spec i (Z.of_nat (length l))); [|lia]. simpl.
  apply lookup_lt_is_Some. lia.
Qed.

Lemma show_entry_in_range (c : Z) (self : CalculatorUI.t) :
  0 <= c < Z.of_nat (length (history (CalculatorUI.engine self))) ->
  exists item,
    CalculatorUI.py_index (history (CalculatorUI.engine self)) c = Some item
    /\ CalculatorUI.show_entry c self
       = CalculatorUI.Done
           (CalculatorUI.mk (CalculatorUI.engine self) (expression item) (expression item)
              (Some c) (CalculatorUI.history_box self)).
Proof.
  intros H. destruct (py_index_in_range (history (CalculatorUI.engine self)) c H)
    as [item Hi].
  exists item. split; [exact Hi|]. unfold CalculatorUI.show_entry. now rewrite Hi.
Qed.

Lemma press_keeps_cursor_ok
    (engine_evaluate : str -> method TI84Engine EvaluationResult)
    (k : CalculatorUI.key) (self : CalculatorUI.t) :
  (forall entered s msg s',
     engine_evaluate entered s = (Raise (TI84Error msg), s') -> history s' = history s) ->
  CalculatorUI.cursor_ok self ->
  match CalculatorUI.press_with engine_evaluate k self with
  | CalculatorUI.Done self' => CalculatorUI.cursor_ok self'
  | CalculatorUI.IndexError => False
  | _ => True
  end.
Proof.
  intros Hev Hok. destruct k; simpl; try exact I.
  - (* ENTER *)
    unfold CalculatorUI._evaluate_expression_with.
    destruct (CalculatorUI.expression self) as [|c0 t0] eqn:He; [exact Hok|].
    destruct (engine_evaluate (c0 :: t0) (CalculatorUI.engine self))
      as [[r|e|] engine'] eqn:Hr; try exact I.
    destruct e; try exact I.
    unfold CalculatorUI.cursor_ok in *. simpl.
    now rewrite (Hev _ _ _ _ Hr).
  - (* up *)
    unfold CalculatorUI._history_previous.
    destruct (history (CalculatorUI.engine self)) as [|h0 hs] eqn:Hh; [exact Hok|].
    rewrite <- Hh.
    assert (Hlen : 0 < Z.of_nat (length (history (CalculatorUI.engine self))))
      by (rewrite Hh; simpl; lia).
    unfold CalculatorUI.cursor_ok in Hok.
    set (cursor := match CalculatorUI._history_cursor self with
                   | Some c => Z.max 0 (c - 1)
                   | None => Z.of_nat (length (history (CalculatorUI.engine self))) - 1
                   end).
    assert (Hc : 0 <= cursor < Z.of_nat (length (history (CalculatorUI.engine self))))
      by (subst cursor; destruct (CalculatorUI._history_cursor self); lia).
    destruct (show_entry_in_range cursor self Hc) as (item & _ & ->). exact Hc.
  - (* down *)
    unfold CalculatorUI._history_next, CalculatorUI.cursor_ok in *.
    destruct (CalculatorUI._history_cursor self) as [c|] eqn:Hcur; [|now rewrite Hcur].
    destruct (Z.leb_spec (Z.of_nat (length (history (CalculatorUI.engine self))) - 1) c);
      [exact I|].
    assert (Hc : 0 <= c + 1 < Z.of_nat (length (history (CalculatorUI.engine self))))
      by lia.
    destruct (show_entry_in_range (c + 1) self Hc) as (item & _ & ->). exact Hc.
Qed.

(** What the handlers let through is what the engine raised, and it is no
    [TI84Error]; they stop for want of an outcome only where the engine does. *)
Lemma press_passes_on
    (engine_evaluate : str -> method TI84Engine EvaluationResult)
    (k : CalculatorUI.key) (self : CalculatorUI.t) :
  match CalculatorUI.press_with engine_evaluate k self with
  | CalculatorUI.Escaped e =>
      (forall msg, e <> TI84Error msg)
      /\ exists entered s, (engine_evaluate entered s).1 = Raise e
  | CalculatorUI.Unmodelled => exists entered s, (engine_evaluate entered s).1 = Stuck
  | _ => True
  end.
Proof.
  destruct k; simpl; try exact I.
  - unfold CalculatorUI._evaluate_expression_with.
    destruct (CalculatorUI.expression self) as [|c0 t0]; [exact I|].
    destruct (engine_evaluate (c0 :: t0) (CalculatorUI.engine self))
      as [[r|e|] engine'] eqn:Hr; [exact I| |].
    + destruct e; try exact I;
        (split; [discriminate|exists (c0 :: t0), (CalculatorUI.engine self); now rewrite Hr]).
    + exists (c0 :: t0), (CalculatorUI.engine self). now rewrite Hr.
  - unfold CalculatorUI._history_previous.
    destruct (history (CalculatorUI.engine self)); [exact I|].
    unfold CalculatorUI.show_entry. now destruct (CalculatorUI.py_index _ _).
  - unfold CalculatorUI._history_next.
    destruct (CalculatorUI._history_cursor self); [|exact I].
    destruct (_ <=? _); [exact I|].
    unfold CalculatorUI.show_entry. now destruct (CalculatorUI.py_index _ _).
Qed.

(** Whatever keys are pressed, and whatever the engine's [evaluate] does
    behind ENTER, provided a call that raises a [TI84Error] leaves the
    history as it was: from a state whose cursor is unset or an index of
    the history (as it is at the start), no handler indexes the history out
    of range, and the cursor is unset or an index of the history afterwards.
    The keys stop only on an exception of [evaluate] that is no
    [TI84Error], which the handler of ENTER lets through. *)
Theorem keys_never_fail
    (engine_evaluate : str -> method TI84Engine EvaluationResult)
    (ks : list CalculatorUI.key) (self : CalculatorUI.t) :
  (forall entered s msg s',
     engine_evaluate entered s = (Raise (TI84Error msg), s') -> history s' = history s) ->
  CalculatorUI.cursor_ok self ->
  CalculatorUI.press_all_with engine_evaluate ks self <> CalculatorUI.IndexError
  /\ (forall self', CalculatorUI.press_all_with engine_evaluate ks self = CalculatorUI.Done self' ->
      CalculatorUI.cursor_ok self')
  /\ (forall e, CalculatorUI.press_all_with engine_evaluate ks self = CalculatorUI.Escaped e ->
      (forall msg, e <> TI84Error msg)
      /\ exists entered s, (engine_evaluate entered s).1 = Raise e)
  /\ ((forall entered s, (engine_evaluate entered s).1 <> Stuck) ->
      CalculatorUI.press_all_with engine_evaluate ks self <> CalculatorUI.Unmodelled)
  /\ CalculatorUI.cursor_ok CalculatorUI.new.
Proof.
  intros Hev. revert self.
  induction ks as [|k ks IH]; intros self Hok.
  - simpl. split; [discriminate|split; [now intros self' [= <-]|]].
    split; [discriminate|split; [discriminate|exact I]].
  - simpl. pose proof (press_keeps_cursor_ok engine_evaluate k self Hev Hok) as Hk.
    pose proof (press_passes_on engine_evaluate k self) as Hp.
    destruct (CalculatorUI.press_with engine_evaluate k self) as [self1| |e|].
    + exact (IH self1 Hk).
    + destruct Hk.
    + split; [discriminate|split; [discriminate|]].
      split; [now intros e' [= <-]|split; [discriminate|exact I]].
    + split; [discriminate|split; [discriminate|]].
      split; [discriminate|split; [|exact I]].
      intros Hs. destruct Hp as (entered & s & Hp). now destruct (Hs entered s).
Qed.

Lemma keys_never_fail_witness :
  CalculatorUI.press_all
    [CalculatorUI.KText (py "3+4"); CalculatorUI.KEnter; CalculatorUI.KUp;
     CalculatorUI.KUp; CalculatorUI.KDown; CalculatorUI.KDel; CalculatorUI.KEnter]
    CalculatorUI.new
  <> CalculatorUI.IndexError.
Proof.
  apply (keys_never_fail evaluate).
  - intros entered s msg s' H. now rewrite (evaluate_raise_same_engine _ _ _ _ H).
  - exact I.
Defined.

Lemma py_index_last {A} (l : list A) (x : A) :
  last l = Some x -> CalculatorUI.py_index l (Z.of_nat (length l) - 1) = Some x.
Proof.
  intros H. apply last_Some in H as [l' ->]. unfold CalculatorUI.py_index.
  rewrite length_app. simpl.
  destruct (Z.ltb_spec (Z.of_nat (length l' + 1) - 1) 0); [lia|].
  destruct (Z.leb_spec 0 (Z.of_nat (length l' + 1) - 1)); [|lia].
  destruct (Z.ltb_spec (Z.of_nat (length l' + 1) - 1) (Z.of_nat (length l' + 1))); [|lia].
  simpl. replace (Z.to_nat (Z.of_nat (length l' + 1) - 1)) with (length l') by lia.
  now rewrite list_lookup_middle.
Qed.

(** Walking through the history: the up arrow with no cursor shows the most
    recent entry; at the oldest entry it stays there; the down arrow at the
    most recent entry empties the expression and unsets the cursor; and
    away from these ends, up then down, or down then up, shows the entry of
    the cursor again. *)
Theorem history_keys_walk (self : CalculatorUI.t) (c : Z) :
  let n := Z.of_nat (length (history (CalculatorUI.engine self))) in
  let cleared := CalculatorUI.mk (CalculatorUI.engine self) [] (py "0") None
                   (CalculatorUI.history_box self) in
  (forall item, CalculatorUI._history_cursor self = None ->
     last (history (CalculatorUI.engine self)) = Some item ->
     CalculatorUI._history_previous self
     = CalculatorUI.Done
         (CalculatorUI.mk (CalculatorUI.engine self) (expression item) (expression item)
            (Some (n - 1)) (CalculatorUI.history_box self)))
  /\ (CalculatorUI._history_cursor self = Some c -> 0 <= c < n ->
      (c = 0 -> CalculatorUI._history_previous self = CalculatorUI.show_entry 0 self)
      /\ (c = n - 1 -> CalculatorUI._history_next self = CalculatorUI.Done cleared)
      /\ (0 < c ->
          CalculatorUI.press_all [CalculatorUI.KUp; CalculatorUI.KDown] self
          = CalculatorUI.show_entry c self)
      /\ (c < n - 1 ->
          CalculatorUI.press_all [CalculatorUI.KDown; CalculatorUI.KUp] self
          = CalculatorUI.show_entry c self)).
Proof.
  intros n cleared. split.
  - intros item Hcur Hlast. subst n. unfold CalculatorUI._history_previous. rewrite Hcur.
    destruct (history (CalculatorUI.engine self)) as [|h0 hs] eqn:Hh; [discriminate|].
    rewrite <- Hh in *. unfold CalculatorUI.show_entry.
    now rewrite (py_index_last _ _ Hlast).
  - intros Hcur Hc.
    assert (Hne : history (CalculatorUI.engine self) <> [])
      by (intros E; subst n; rewrite E in Hc; simpl in Hc; lia).
    assert (Hup : forall s, CalculatorUI.engine s = CalculatorUI.engine self ->
              CalculatorUI._history_previous s
              = CalculatorUI.show_entry
                  (match CalculatorUI._history_cursor s with
                   | Some c' => Z.max 0 (c' - 1)
                   | None => n - 1
                   end) s).
    { intros s Hs. unfold CalculatorUI._history_previous. rewrite Hs.
      now destruct (history (CalculatorUI.engine self)). }
    split; [|split; [|split]].
    + intros ->. now rewrite (Hup self eq_refl), Hcur.
    + intros ->. unfold CalculatorUI._history_next. rewrite Hcur. fold n.
      now rewrite Z.leb_refl.
    + intros Hpos. unfold CalculatorUI.press_all. simpl. rewrite (Hup self eq_refl), Hcur.
      rewrite Z.max_r by lia.
      destruct (show_entry_in_range (c - 1) self ltac:(fold n; lia)) as (item & _ & ->).
      unfold CalculatorUI._history_next. simpl. fold n.
      destruct (Z.leb_spec (n - 1) (c - 1)); [lia|].
      replace (c - 1 + 1) with c by lia.
      destruct (show_entry_in_range c self ltac:(fold n; lia)) as (item' & Hi & ->).
      unfold CalculatorUI.show_entry. simpl. now rewrite Hi.
    + intros Hlt. unfold CalculatorUI.press_all. simpl.
      unfold CalculatorUI._history_next at 1. rewrite Hcur. fold n.
      destruct (Z.leb_spec (n - 1) c); [lia|].
      destruct (show_entry_in_range (c + 1) self ltac:(fold n; lia)) as (item & _ & ->).
      rewrite Hup by reflexivity. simpl.
      replace (Z.max 0 (c + 1 - 1)) with c by lia.
      destruct (show_entry_in_range c self ltac:(fold n; lia)) as (item' & Hi & ->).
      unfold CalculatorUI.show_entry. simpl. now rewrite Hi.
Qed.

Lemma history_keys_walk_witness :
  let r1 := mkResult (py "1+1") (py "2") in
  let r2 := mkResult (py "2*3") (py "6") in
  let self := CalculatorUI.mk (mkEngine 20 fzero [r1; r2]) (py "7") (py "7") None [] in
  CalculatorUI._history_previous self
  = CalculatorUI.Done (CalculatorUI.mk (mkEngine 20 fzero [r1; r2]) (py "2*3") (py "2*3")
                         (Some 1) []).
Proof.
  intros r1 r2 self.
  destruct (history_keys_walk self 0) as [H _]. exact (H r2 eq_refl eq_refl).
Defined.

(** The ENTER key: with an empty expression nothing happens; when the
    evaluation raises a [TI84Error], the display shows its message and the
    expression, the cursor, the history box and the engine are as before;
    any other exception of the evaluation leaves the handler; when the
    evaluation returns, the display and the expression are the formatted
    value, the cursor is unset, and the history box lists the history of
    the engine, newest first, which with a capacity of at least 1 starts
    with the line of this evaluation. *)
Theorem enter_key (self : CalculatorUI.t) :
  (CalculatorUI.expression self = [] -> CalculatorUI._evaluate_expression self
                                        = CalculatorUI.Done self)
  /\ (forall msg engine', CalculatorUI.expression self <> [] ->
      evaluate (CalculatorUI.expression self) (CalculatorUI.engine self)
      = (Raise (TI84Error msg), engine') ->
      CalculatorUI._evaluate_expression self
      = CalculatorUI.Done
          (CalculatorUI.mk (CalculatorUI.engine self) (CalculatorUI.expression self) msg
             (CalculatorUI._history_cursor self) (CalculatorUI.history_box self)))
  /\ (forall e engine', CalculatorUI.expression self <> [] ->
      evaluate (CalculatorUI.expression self) (CalculatorUI.engine self) = (Raise e, engine') ->
      (forall msg, e <> TI84Error msg) ->
      CalculatorUI._evaluate_expression self = CalculatorUI.Escaped e)
  /\ (forall r engine', CalculatorUI.expression self <> [] ->
      evaluate (CalculatorUI.expression self) (CalculatorUI.engine self) = (Ret r, engine') ->
      CalculatorUI._evaluate_expression self
      = CalculatorUI.Done
          (CalculatorUI.mk engine' (value r) (value r) None
             (List.map CalculatorUI.history_line (rev (history engine'))))
      /\ (0 < history_limit (CalculatorUI.engine self) ->
          head (List.map CalculatorUI.history_line (rev (history engine')))
          = Some (CalculatorUI.expression self ++ py " = " ++ value r))).
Proof.
  unfold CalculatorUI._evaluate_expression, CalculatorUI._evaluate_expression_with.
  split; [|split; [|split]].
  - now intros ->.
  - intros msg engine' Hne Hev.
    pose proof (evaluate_raise_same_engine _ _ _ _ Hev) as ->.
    destruct (CalculatorUI.expression self); [done|]. now rewrite Hev.
  - intros e engine' Hne Hev Hti.
    destruct (CalculatorUI.expression self); [done|]. rewrite Hev.
    destruct e; try reflexivity. now destruct (Hti msg).
  - intros r engine' Hne Hev. split.
    + destruct (CalculatorUI.expression self); [done|]. now rewrite Hev.
    + intros Hl. destruct (evaluate_returns_state _ _ _ _ Hev) as [Hr ->].
      destruct (append_history_recent (CalculatorUI.expression self) (value r)
                  (CalculatorUI.engine self) Hl) as [-> _].
      unfold most_recent. rewrite drop_app_le by (rewrite length_app; simpl; lia).
      rewrite rev_app_distr. reflexivity.
Qed.

Lemma enter_key_witness :
  CalculatorUI.press_all [CalculatorUI.KText (py "1/0"); CalculatorUI.KEnter] CalculatorUI.new
  = CalculatorUI.Done
      (CalculatorUI.mk new_engine (py "1/0") (py "ERROR: DIVIDE BY 0") None []).
Proof.
  destruct (enter_key (CalculatorUI.mk new_engine (py "1/0") (py "1/0") None []))
    as (_ & H & _).
  exact (H (py "ERROR: DIVIDE BY 0") new_engine ltac:(discriminate) ltac:(run_python)).
Defined.

(** Editing the expression: a text key, DEL and CLEAR leave the engine and
    the history box alone, unset the cursor, and the display shows the
    expression, or [0] when the expression is empty; DEL after a key that
    appends one character gives the expression back. *)
Theorem editing_keys (self : CalculatorUI.t) (k : CalculatorUI.key) :
  match k with
  | CalculatorUI.KText (_ :: _) | CalculatorUI.KDel | CalculatorUI.KClear => True
  | _ => False
  end ->
  (exists self', CalculatorUI.press k self = CalculatorUI.Done self'
     /\ CalculatorUI.display_var self' = CalculatorUI.or_zero (CalculatorUI.expression self')
     /\ CalculatorUI._history_cursor self' = None
     /\ CalculatorUI.engine self' = CalculatorUI.engine self
     /\ CalculatorUI.history_box self' = CalculatorUI.history_box self)
  /\ (forall c, exists self',
        CalculatorUI.press_all [CalculatorUI.KText [c]; CalculatorUI.KDel] self
        = CalculatorUI.Done self'
        /\ CalculatorUI.expression self' = CalculatorUI.expression self).
Proof.
  intros Hk. split.
  - destruct k as [[|c t]| | | | |]; try done; simpl; eexists; (split; [reflexivity|]);
      simpl; repeat split.
    now destruct (CalculatorUI.expression self).
  - intros c. simpl. eexists. split; [reflexivity|]. simpl.
    now rewrite removelast_last.
Qed.

Lemma editing_keys_witness :
  exists self',
    CalculatorUI.press CalculatorUI.KDel
      (CalculatorUI.mk new_engine (py "7") (py "7") None []) = CalculatorUI.Done self'
    /\ CalculatorUI.display_var self' = py "0".
Proof.
  destruct (editing_keys (CalculatorUI.mk new_engine (py "7") (py "7") None [])
              CalculatorUI.KDel I) as [(self' & Hp & Hd & _) _].
  exists self'. split; [exact Hp|]. rewrite Hd.
  simpl in Hp. injection Hp as <-. reflexivity.
Defined.

(** *** The digits of a result *)

Lemma fold_dec (s : str) (acc : Z) :
  fold_left (fun acc c => 10 * acc + digit_val c) s acc
  = acc * 10 ^ Z.of_nat (length s) + dec s.
Proof.
  unfold dec. revert acc. induction s as [|c s IH]; intros acc; simpl length.
  - simpl. lia.
  - simpl fold_left. rewrite IH, (IH (10 * 0 + digit_val c)).
    rewrite Nat2Z.inj_succ, Z.pow_succ_r by lia. ring.
Qed.

Lemma dec_app (a b : str) : dec (a ++ b) = dec a * 10 ^ Z.of_nat (length b) + dec b.
Proof. unfold dec at 1. rewrite fold_left_app. fold (dec a). apply fold_dec. Qed.

Lemma dec_cons (c : char) (s : str) :
  dec (c :: s) = digit_val c * 10 ^ Z.of_nat (length s) + dec s.
Proof. change (c :: s) with ([c] ++ s). rewrite dec_app. unfold dec at 1. simpl. lia. Qed.

Lemma read_digits_dec (s : str) (acc : Z) :
  forallb is_digit s = true ->
  read_digits acc s = Some (acc * 10 ^ Z.of_nat (length s) + dec s).
Proof.
  revert acc. induction s as [|c s IH]; intros acc H.
  - simpl. f_equal. unfold dec. simpl. lia.
  - simpl in H. apply andb_true_iff in H as [Hc Hs]. simpl read_digits. rewrite Hc.
    rewrite (IH _ Hs), dec_cons. f_equal. simpl length.
    rewrite Nat2Z.inj_succ, Z.pow_succ_r by lia. ring.
Qed.

Lemma is_digit_val (c : char) : is_digit c = true -> 0 <= digit_val c <= 9.
Proof.
  unfold is_digit, in_range, digit_val. intros H. apply andb_true_iff in H as [H1 H2].
  apply N.leb_le in H1, H2. lia.
Qed.

Lemma dec_bounds (s : str) :
  forallb is_digit s = true -> 0 <= dec s < 10 ^ Z.of_nat (length s).
Proof.
  induction s as [|c s IH]; intros H.
  - unfold dec. simpl. lia.
  - simpl in H. apply andb_true_iff in H as [Hc Hs]. rewrite dec_cons.
    pose proof (is_digit_val c Hc). specialize (IH Hs).
    simpl length. rewrite Nat2Z.inj_succ, Z.pow_succ_r by lia. nia.
Qed.

Lemma uint_str_digits (d : Decimal.uint) : forallb is_digit (uint_str d) = true.
Proof. induction d; simpl; try reflexivity; exact IHd. Qed.

Lemma uint_str_length (d : Decimal.uint) : length (uint_str d) = Decimal.nb_digits d.
Proof. induction d; simpl; congruence. Qed.

Lemma horner_uint_str (d : Decimal.uint) (acc : Z) :
  fold_left (fun acc c => 10 * acc + digit_val c) (uint_str d) acc = horner acc d.
Proof.
  revert acc. induction d; intros acc; simpl; try reflexivity; rewrite <- IHd; f_equal;
    unfold digit_val; simpl; lia.
Qed.

Lemma of_lu_revapp_horner (d d' : Decimal.uint) :
  Z.of_N (DecimalPos.Unsigned.of_lu (Decimal.revapp d d')) = horner (Z.of_N (DecimalPos.Unsigned.of_lu d')) d.
Proof.
  revert d'. induction d; intros d'; simpl Decimal.revapp; simpl horner;
    try reflexivity; rewrite IHd; f_equal; simpl DecimalPos.Unsigned.of_lu; lia.
Qed.

Lemma of_uint_horner (d : Decimal.uint) : Z.of_N (N.of_uint d) = horner 0 d.
Proof.
  unfold N.of_uint. rewrite DecimalPos.Unsigned.of_uint_alt. unfold Decimal.rev.
  now rewrite of_lu_revapp_horner.
Qed.

Lemma dec_digits (n : Z) : 0 <= n -> dec (digits n) = n.
Proof.
  intros Hn. unfold dec, digits. rewrite horner_uint_str, <- of_uint_horner.
  rewrite DecimalN.Unsigned.of_to. lia.
Qed.

Lemma digits_all (n : Z) : forallb is_digit (digits n) = true.
Proof. apply uint_str_digits. Qed.

Lemma to_uint_head (p : positive) :
  match Pos.to_uint p with
  | Decimal.Nil | Decimal.D0 _ => False
  | _ => True
  end.
Proof.
  pose proof (DecimalPos.Unsigned.to_uint_nonzero p) as Hz.
  pose proof (DecimalPos.Unsigned.to_uint_nonnil p) as Hn.
  pose proof (DecimalPos.Unsigned.to_of (Pos.to_uint p)) as Hu.
  rewrite DecimalPos.Unsigned.of_to in Hu. simpl in Hu.
  destruct (Pos.to_uint p) as [|d| | | | | | | | | ]; try exact I; [now apply Hn|].
  rewrite DecimalFacts.unorm_D0 in Hu. unfold Decimal.unorm in Hu.
  destruct (Decimal.nzhead d) eqn:Hd; try discriminate.
  - injection Hu as Hu. subst d. now apply Hz.
  - now destruct (DecimalFacts.nzhead_nonzero d u).
Qed.

(** The number of digits of a positive number. *)
Lemma digits_bounds (n : Z) :
  0 < n ->
  10 ^ (Z.of_nat (length (digits n)) - 1) <= n < 10 ^ Z.of_nat (length (digits n)).
Proof.
  intros Hn. pose proof (dec_digits n ltac:(lia)) as Hd.
  pose proof (dec_bounds _ (digits_all n)) as Hb. split; [|lia].
  unfold digits in *. destruct (Z.to_N n) as [|p] eqn:Hp; [lia|].
  simpl N.to_uint in *. pose proof (to_uint_head p) as Hh.
  destruct (Pos.to_uint p) as [|d|d|d|d|d|d|d|d|d|d]; try destruct Hh;
    simpl uint_str in *; rewrite dec_cons in Hd; simpl length;
    rewrite Nat2Z.inj_succ;
    replace (Z.succ (Z.of_nat (length (uint_str d))) - 1)
      with (Z.of_nat (length (uint_str d))) by lia;
    pose proof (dec_bounds _ (uint_str_digits d));
    change (digit_val (chr _)) with 1 in Hd || change (digit_val (chr _)) with 2 in Hd
    || change (digit_val (chr _)) with 3 in Hd || change (digit_val (chr _)) with 4 in Hd
    || change (digit_val (chr _)) with 5 in Hd || change (digit_val (chr _)) with 6 in Hd
    || change (digit_val (chr _)) with 7 in Hd || change (digit_val (chr _)) with 8 in Hd
    || change (digit_val (chr _)) with 9 in Hd; nia.
Qed.

Lemma digits_nonempty (n : Z) : digits n <> [].
Proof.
  unfold digits. destruct (Z.to_N n) as [|p]; [discriminate|]. simpl.
  pose proof (to_uint_head p). destruct (Pos.to_uint p); try discriminate. destruct H.
Qed.

Lemma pow10_pos (k : Z) : 0 <= k -> 0 < 10 ^ k.
Proof. intros. apply Z.pow_pos_nonneg; lia. Qed.

Lemma pow10_lt_inv (a b : Z) : 0 <= a -> 0 <= b -> 10 ^ a < 10 ^ b -> a < b.
Proof. intros Ha Hb H. apply (Z.pow_lt_mono_r_iff 10); lia. Qed.

Lemma digits_length (n L : Z) :
  1 <= L -> 10 ^ (L - 1) <= n < 10 ^ L -> Z.of_nat (length (digits n)) = L.
Proof.
  intros HL [H1 H2]. assert (Hn : 0 < n) by (pose proof (pow10_pos (L - 1)); lia).
  pose proof (digits_bounds n Hn) as [H3 H4].
  assert (1 <= Z.of_nat (length (digits n))).
  { pose proof (digits_nonempty n). destruct (digits n); [done|simpl; lia]. }
  assert (L - 1 < Z.of_nat (length (digits n))) by (apply pow10_lt_inv; lia).
  assert (Z.of_nat (length (digits n)) - 1 < L) by (apply pow10_lt_inv; lia).
  lia.
Qed.

Lemma decimal_exponent_ok (num den : Z) :
  0 < num -> 0 < den -> exponent_ok num den (decimal_exponent num den).
Proof.
  intros Hn Hd. unfold decimal_exponent, exponent_ok.
  destruct (Z.leb_spec den num) as [Hle|Hlt].
  - assert (Hq : 0 < num / den) by (apply Z.div_str_pos; lia).
    pose proof (digits_bounds _ Hq) as [H1 H2].
    set (L := Z.of_nat (length (digits (num / den)))) in *.
    assert (HL : 1 <= L).
    { subst L. pose proof (digits_nonempty (num / den)).
      destruct (digits (num / den)); [done|simpl; lia]. }
    destruct (Z.leb_spec 0 (L - 1)); [|lia].
    replace (L - 1 + 1) with L by lia.
    pose proof (Z.mul_div_le num den Hd). pose proof (Z.mul_succ_div_gt num den Hd).
    pose proof (pow10_pos (L - 1)). nia.
  - pose proof (digits_bounds _ Hn) as [H1 H2]. pose proof (digits_bounds _ Hd) as [H3 H4].
    set (a := Z.of_nat (length (digits den))) in *.
    set (b := Z.of_nat (length (digits num))) in *.
    assert (Hb : 1 <= b).
    { subst b. pose proof (digits_nonempty num). destruct (digits num); [done|simpl; lia]. }
    assert (Ha : 1 <= a).
    { subst a. pose proof (digits_nonempty den). destruct (digits den); [done|simpl; lia]. }
    assert (Hba : b <= a).
    { assert (b - 1 < a) by (apply pow10_lt_inv; lia). lia. }
    set (k := a - b).
    assert (Hk : 0 <= k) by (subst k; lia).
    assert (Hpk : 10 ^ a = 10 ^ b * 10 ^ k) by (rewrite <- Z.pow_add_r by lia; f_equal; lia).
    assert (Hpk' : 10 ^ (a - 1) = 10 ^ (b - 1) * 10 ^ k)
      by (rewrite <- Z.pow_add_r by lia; f_equal; lia).
    assert (Ha10 : 10 ^ a = 10 * 10 ^ (a - 1))
      by (rewrite <- Z.pow_succ_r by lia; f_equal; lia).
    pose proof (pow10_pos k Hk) as Hpos.
    destruct (Z.leb_spec den (num * 10 ^ k)) as [H5|H5].
    + assert (k <> 0) by (intros E; rewrite E in H5; simpl in H5; lia).
      destruct (Z.leb_spec 0 (- k)); [lia|].
      replace (- - k) with k by lia. nia.
    + destruct (Z.leb_spec 0 (- (k + 1))); [lia|].
      replace (- - (k + 1)) with (k + 1) by lia.
      rewrite Z.pow_add_r by lia. change (10 ^ 1) with 10. nia.
Qed.

Lemma round_half_even_ok (num den : Z) :
  0 < den -> Z.abs (2 * num - 2 * round_half_even num den * den) <= den.
Proof.
  intros Hd. unfold round_half_even.
  pose proof (Z.div_mod num den ltac:(lia)) as Hdm.
  pose proof (Z.mod_pos_bound num den Hd) as Hm.
  destruct (Z.compare_spec (2 * (num mod den)) den); [destruct (Z.even _)| |]; nia.
Qed.

Lemma round_half_even_mono (num den lo hi : Z) :
  0 < den -> lo * den <= num <= hi * den ->
  lo <= round_half_even num den <= hi.
Proof.
  intros Hd [Hlo Hhi]. unfold round_half_even.
  pose proof (Z.div_mod num den ltac:(lia)) as Hdm.
  pose proof (Z.mod_pos_bound num den Hd) as Hm.
  assert (lo <= num / den) by (apply Z.div_le_lower_bound; lia).
  assert (num / den <= hi) by (apply Z.div_le_upper_bound; lia).
  destruct (Z.compare_spec (2 * (num mod den)) den); [destruct (Z.even _)| |]; nia.
Qed.

Lemma scaled_range (num den X : Z) :
  0 < num -> 0 < den -> exponent_ok num den X ->
  let '(n', d') := scaled num den X in
  0 < d' /\ 10 ^ 9 * d' <= n' < 10 ^ 10 * d'.
Proof.
  intros Hn Hd. unfold exponent_ok, scaled.
  destruct (Z.leb_spec X 9) as [H9|H9].
  - destruct (Z.leb_spec 0 X) as [H0|H0]; intros [H1 H2]; (split; [lia|]).
    + assert (E : 10 ^ 9 = 10 ^ X * 10 ^ (9 - X))
        by (rewrite <- Z.pow_add_r by lia; f_equal; lia).
      assert (E' : 10 ^ 10 = 10 ^ (X + 1) * 10 ^ (9 - X))
        by (rewrite <- Z.pow_add_r by lia; f_equal; lia).
      pose proof (pow10_pos (9 - X)). rewrite E, E'. nia.
    + assert (E : 10 ^ (9 - X) = 10 ^ (- X) * 10 ^ 9)
        by (rewrite <- Z.pow_add_r by lia; f_equal; lia).
      rewrite E. lia.
  - destruct (Z.leb_spec 0 X) as [H0|H0]; [|lia]. intros [H1 H2].
    pose proof (pow10_pos (X - 9)).
    assert (E : 10 ^ X = 10 ^ 9 * 10 ^ (X - 9))
      by (rewrite <- Z.pow_add_r by lia; f_equal; lia).
    assert (E' : 10 ^ (X + 1) = 10 ^ 10 * 10 ^ (X - 9))
      by (rewrite <- Z.pow_add_r by lia; f_equal; lia).
    split; [nia|]. rewrite E in H1. rewrite E' in H2. nia.
Qed.

Lemma ten_digits_ok (num den : Z) :
  0 < num -> 0 < den ->
  let X := decimal_exponent num den in
  let '(n', d') := scaled num den X in
  exists r, 10 ^ 9 <= r <= 10 ^ 10
    /\ Z.abs (2 * n' - 2 * r * d') <= d'
    /\ ten_digits num den = if r =? 10 ^ 10 then (10 ^ 9, X + 1) else (r, X).
Proof.
  intros Hn Hd X. pose proof (decimal_exponent_ok num den Hn Hd) as Hx. fold X in Hx.
  pose proof (scaled_range num den X Hn Hd Hx) as Hr.
  unfold ten_digits. fold X. unfold scaled in *.
  destruct (X <=? 9).
  - destruct Hr as [Hd' Hr]. exists (round_half_even (num * 10 ^ (9 - X)) den).
    split; [apply round_half_even_mono; lia|]. split; [now apply round_half_even_ok|reflexivity].
  - destruct Hr as [Hd' Hr]. exists (round_half_even num (den * 10 ^ (X - 9))).
    split; [apply round_half_even_mono; lia|]. split; [now apply round_half_even_ok|reflexivity].
Qed.

Lemma split_at_absent (n : N) (s : str) :
  has_code n s = false -> split_at n s = (s, None).
Proof.
  induction s as [|c s IH]; [reflexivity|]. unfold has_code in *. simpl.
  intros H. apply orb_false_iff in H as [Hc Hs]. rewrite Hc, (IH Hs). reflexivity.
Qed.

Lemma split_at_first (n : N) (a b : str) (c : char) :
  has_code n a = false -> code c = n -> split_at n (a ++ c :: b) = (a, Some b).
Proof.
  intros Ha Hc. induction a as [|x a IH]; simpl.
  - now rewrite Hc, N.eqb_refl.
  - unfold has_code in Ha. simpl in Ha. apply orb_false_iff in Ha as [Hx Ha].
    rewrite Hx, (IH Ha). reflexivity.
Qed.

Lemma digits_no_code (n : N) (s : str) :
  (n <? 48)%N || (57 <? n)%N = true -> forallb is_digit s = true -> has_code n s = false.
Proof.
  intros Hn. induction s as [|c s IH]; [reflexivity|]. simpl. intros H.
  apply andb_true_iff in H as [Hc Hs]. unfold has_code. simpl.
  fold (has_code n s). rewrite (IH Hs), orb_false_r.
  unfold is_digit, in_range in Hc. apply andb_true_iff in Hc as [H1 H2].
  apply N.leb_le in H1, H2. apply N.eqb_neq. intros E. rewrite E in *.
  apply orb_true_iff in Hn as [Hn|Hn]; apply N.ltb_lt in Hn; lia.
Qed.

Lemma dec_zeros (z : str) : all_zeros z = true -> dec z = 0.
Proof.
  induction z as [|c z IH]; [reflexivity|]. simpl. intros H.
  apply andb_true_iff in H as [Hc Hz]. rewrite dec_cons, (IH Hz).
  unfold digit_val. apply N.eqb_eq in Hc. rewrite Hc. lia.
Qed.

Lemma zeros_digits (z : str) : all_zeros z = true -> forallb is_digit z = true.
Proof.
  induction z as [|c z IH]; [reflexivity|]. simpl. intros H.
  apply andb_true_iff in H as [Hc Hz]. rewrite (IH Hz), andb_true_r.
  apply N.eqb_eq in Hc. unfold is_digit, in_range. now rewrite Hc.
Qed.

Lemma lstrip_zeros_split (s : str) :
  exists z, s = z ++ lstrip_zeros s /\ all_zeros z = true.
Proof.
  induction s as [|c s (z & Hz & Hall)]; [now exists []|]. simpl.
  destruct (code c =? 48)%N eqn:Hc.
  - exists (c :: z). split; [simpl; congruence|]. simpl. now rewrite Hc.
  - now exists [].
Qed.

Lemma all_zeros_rev (z : str) : all_zeros (rev z) = all_zeros z.
Proof. apply forallb_rev. Qed.

Lemma rstrip_zeros_split (s : str) :
  exists z, s = rstrip_zeros s ++ z /\ all_zeros z = true.
Proof.
  unfold rstrip_zeros. destruct (lstrip_zeros_split (rev s)) as (z & Hz & Hall).
  exists (rev z). split; [|now rewrite all_zeros_rev].
  rewrite <- rev_app_distr, <- Hz. now rewrite rev_involutive.
Qed.

(** Stripping trailing zeros off [t] digits after the point keeps the number. *)
Lemma rstrip_zeros_value (s : str) :
  forallb is_digit s = true ->
  let f := rstrip_zeros s in
  forallb is_digit f = true
  /\ (length f <= length s)%nat
  /\ dec s = dec f * 10 ^ (Z.of_nat (length s) - Z.of_nat (length f)).
Proof.
  intros Hs f. destruct (rstrip_zeros_split s) as (z & Hz & Hall). fold f in Hz.
  assert (Hl : length s = (length f + length z)%nat) by (rewrite Hz at 1; apply length_app).
  rewrite Hz in Hs. rewrite forallb_app in Hs. apply andb_true_iff in Hs as [Hf _].
  split; [exact Hf|]. split; [lia|].
  rewrite Hz at 1. rewrite dec_app, (dec_zeros z Hall), Z.add_0_r.
  f_equal. f_equal. lia.
Qed.

Lemma read_nat_digits (s : str) :
  s <> [] -> forallb is_digit s = true -> read_nat s = Some (dec s).
Proof.
  intros Hne Hs. unfold read_nat. destruct s; [done|].
  rewrite (read_digits_dec _ 0 Hs). f_equal; lia.
Qed.

(** Reading digits, a point when the fraction is not empty, and a fraction. *)
Lemma read_mantissa (ip fr : str) :
  ip <> [] -> forallb is_digit ip = true -> forallb is_digit fr = true ->
  split_at 46 (with_fraction ip fr) = (ip, match fr with [] => None | _ => Some fr end).
Proof.
  intros Hne Hip Hfr. unfold with_fraction. destruct fr as [|c fr].
  - apply split_at_absent. now apply digits_no_code.
  - change (py ".") with [chr 46]. simpl app at 2.
    apply split_at_first; [now apply digits_no_code|reflexivity].
Qed.

Lemma with_fraction_no_e (ip fr : str) :
  forallb is_digit ip = true -> forallb is_digit fr = true ->
  has_code 101 (with_fraction ip fr) = false.
Proof.
  intros Hip Hfr. unfold with_fraction. destruct fr as [|c fr]; [now apply digits_no_code|].
  rewrite !has_code_app, (digits_no_code 101 ip), (digits_no_code 101 (c :: fr)); done.
Qed.

Lemma with_fraction_head (ip fr : str) (c : char) (t : str) :
  ip = c :: t -> exists t', with_fraction ip fr = c :: t'.
Proof. intros ->. unfold with_fraction. destruct fr; eauto. Qed.

Lemma exponent_str_read (X : Z) :
  exists sign t, exponent_str X = chr 101 :: sign :: t
    /\ read_signed (sign :: t) = Some X.
Proof.
  unfold exponent_str.
  set (a := digits (Z.abs X)).
  assert (Ha : forallb is_digit a = true) by apply digits_all.
  assert (Hne : a <> []) by apply digits_nonempty.
  assert (Hd : dec a = Z.abs X) by (apply dec_digits; lia).
  set (p := if Nat.ltb (length a) 2 then py "0" ++ a else a).
  assert (Hp : read_nat p = Some (Z.abs X)).
  { subst p. destruct (Nat.ltb (length a) 2).
    - rewrite read_nat_digits; [|discriminate|simpl; exact Ha].
      change (py "0" ++ a) with (chr 48 :: a). rewrite dec_cons.
      change (digit_val (chr 48)) with 0. f_equal. lia.
    - rewrite read_nat_digits by done. now f_equal. }
  destruct (Z.ltb_spec X 0).
  - exists (chr 45), p. split; [reflexivity|]. simpl. rewrite Hp. simpl. f_equal. lia.
  - exists (chr 43), p. split; [reflexivity|]. simpl. rewrite Hp. f_equal. lia.
Qed.

(** What a mantissa with [places] digits after the point and an exponent
    [x] reads as. *)
Lemma read_decimal_parts (ip fr : str) (ex : option str) (x : Z) (body : str) :
  ip <> [] -> forallb is_digit ip = true -> forallb is_digit fr = true ->
  match ex with Some t => read_signed t | None => Some 0 end = Some x ->
  split_at 101 body = (with_fraction ip fr, ex) ->
  read_decimal body
  = Some (dec ip * 10 ^ Z.of_nat (length fr) + dec fr, x - Z.of_nat (length fr))
  /\ read_decimal (py "-" ++ body)
     = Some (- (dec ip * 10 ^ Z.of_nat (length fr) + dec fr), x - Z.of_nat (length fr)).
Proof.
  intros Hne Hip Hfr Hx Hsplit.
  assert (Hbody : exists c t, body = c :: t /\ (code c =? 45)%N = false).
  { destruct ip as [|c t] eqn:E; [done|]. rewrite <- E in *.
    destruct (with_fraction_head ip fr c t E) as (t' & Ht'). rewrite Ht' in Hsplit.
    assert (Hc : is_digit c = true) by (rewrite E in Hip; simpl in Hip; now apply andb_true_iff in Hip as [? _]).
    assert (H45 : (code c =? 45)%N = false).
    { unfold is_digit, in_range in Hc. apply andb_true_iff in Hc as [H1 _].
      apply N.leb_le in H1. apply N.eqb_neq. lia. }
    destruct body as [|b body']; [simpl in Hsplit; discriminate|].
    simpl in Hsplit. destruct (code b =? 101)%N eqn:Hb; [discriminate|].
    destruct (split_at 101 body') as [a' b']. injection Hsplit as <- _ _.
    eauto. }
  destruct Hbody as (c & t & -> & Hc).
  assert (H : read_unsigned (c :: t)
              = Some (dec ip * 10 ^ Z.of_nat (length fr) + dec fr, x - Z.of_nat (length fr))).
  { unfold read_unsigned. rewrite Hsplit, (read_mantissa ip fr Hne Hip Hfr).
    rewrite (read_nat_digits ip Hne Hip). simpl.
    destruct fr as [|c0 fr0].
    - simpl. rewrite Hx. simpl. unfold dec at 2. simpl. reflexivity.
    - rewrite (read_nat_digits (c0 :: fr0)) by done. simpl. rewrite Hx. reflexivity. }
  split.
  - unfold read_decimal. rewrite Hc. exact H.
  - unfold read_decimal. change (py "-" ++ c :: t) with (chr 45 :: c :: t).
    change (code (chr 45) =? 45)%N with true. cbv iota. now rewrite H.
Qed.

Lemma forallb_take {A} (f : A -> bool) (n : nat) (l : list A) :
  forallb f l = true -> forallb f (take n l) = true.
Proof.
  revert n. induction l as [|x l IH]; intros [|n]; simpl; try reflexivity.
  intros H. apply andb_true_iff in H as [Hx Hl]. now rewrite Hx, (IH n Hl).
Qed.

Lemma forallb_drop {A} (f : A -> bool) (n : nat) (l : list A) :
  forallb f l = true -> forallb f (drop n l) = true.
Proof.
  revert n. induction l as [|x l IH]; intros [|n]; simpl; try reflexivity; [done|].
  intros H. apply andb_true_iff in H as [Hx Hl]. now apply IH.
Qed.

(** The ten digits split after [p] of them, the zeros at the end of the
    second part left out: the number read, scaled back, is the ten digits. *)
Lemma split_digits (ds : str) (p : nat) :
  forallb is_digit ds = true -> (1 <= p <= length ds)%nat ->
  let ip := take p ds in
  let fr := rstrip_zeros (drop p ds) in
  ip <> [] /\ forallb is_digit ip = true /\ forallb is_digit fr = true
  /\ (length fr <= length ds - p)%nat
  /\ (dec ip * 10 ^ Z.of_nat (length fr) + dec fr)
     * 10 ^ (Z.of_nat (length ds - p) - Z.of_nat (length fr))
     = dec ds.
Proof.
  intros Hds Hp ip fr.
  destruct (rstrip_zeros_value (drop p ds) (forallb_drop _ p _ Hds)) as (Hfr & Hlen & Hval).
  fold fr in Hfr, Hlen, Hval. rewrite length_drop in Hlen, Hval.
  split; [|split; [now apply forallb_take|split; [exact Hfr|split; [exact Hlen|]]]].
  - subst ip. destruct ds; [simpl in Hp; lia|]. destruct p; [lia|discriminate].
  - assert (Hsplit : dec ds = dec ip * 10 ^ Z.of_nat (length (drop p ds)) + dec (drop p ds))
      by (rewrite <- dec_app; subst ip; now rewrite take_drop).
    rewrite Hsplit, Hval, length_drop.
    set (a := Z.of_nat (length fr)) in *. set (b := Z.of_nat (length ds - p)) in *.
    assert (E : 10 ^ b = 10 ^ a * 10 ^ (b - a))
      by (rewrite <- Z.pow_add_r by lia; f_equal; lia).
    rewrite E. ring.
Qed.

Lemma format_10g_reads (s : bool) (m : positive) (e d X : Z) :
  ten_digits (if 0 <=? e then Z.pos m * 2 ^ e else Z.pos m)
             (if 0 <=? e then 1 else 2 ^ (- e)) = (d, X) ->
  10 ^ 9 <= d < 10 ^ 10 ->
  exists c k t,
    read_decimal (format_10g (S754_finite s m e)) = Some (if s then - c else c, k)
    /\ 0 <= t /\ c * 10 ^ t = d /\ k = X - 9 + t.
Proof.
  intros Hten Hd. unfold format_10g. rewrite Hten.
  set (ds := digits d).
  assert (Hds : forallb is_digit ds = true) by apply digits_all.
  assert (Hlen : length ds = 10%nat).
  { pose proof (digits_length d 10 ltac:(lia) Hd). subst ds. lia. }
  assert (Hdec : dec ds = d) by (apply dec_digits; lia).
  assert (Hout : forall ip fr ex x body,
    ip <> [] -> forallb is_digit ip = true -> forallb is_digit fr = true ->
    match ex with Some t => read_signed t | None => Some 0 end = Some x ->
    split_at 101 body = (with_fraction ip fr, ex) ->
    read_decimal (if s then py "-" ++ body else body)
    = Some (if s then - (dec ip * 10 ^ Z.of_nat (length fr) + dec fr)
            else dec ip * 10 ^ Z.of_nat (length fr) + dec fr,
            x - Z.of_nat (length fr))).
  { intros ip fr ex x body H1 H2 H3 H4 H5.
    destruct (read_decimal_parts ip fr ex x body H1 H2 H3 H4 H5) as [Hp Hn].
    now destruct s. }
  destruct ((X <? -4) || (10 <=? X)) eqn:Hsci.
  - (* with an exponent *)
    destruct (split_digits ds 1 Hds ltac:(lia)) as (Hne & Hip & Hfr & Hl & Hv).
    set (ip := take 1 ds) in *. set (fr := rstrip_zeros (drop 1 ds)) in *.
    destruct (exponent_str_read X) as (sign & t & He & Hr).
    exists (dec ip * 10 ^ Z.of_nat (length fr) + dec fr), (X - Z.of_nat (length fr)),
           (Z.of_nat (length ds - 1) - Z.of_nat (length fr)).
    split; [|split; [lia|split; [now rewrite Hv|rewrite Hlen; simpl; lia]]].
    apply (Hout ip fr (Some (sign :: t)) X); try assumption.
    rewrite He. apply split_at_first; [now apply with_fraction_no_e|reflexivity].
  - apply orb_false_iff in Hsci as [H4 H10].
    apply Z.ltb_ge in H4. apply Z.leb_gt in H10.
    destruct (Z.leb_spec 0 X) as [H0|H0].
    + (* digits before and after the point *)
      destruct (split_digits ds (Z.to_nat (X + 1)) Hds ltac:(lia)) as (Hne & Hip & Hfr & Hl & Hv).
      set (ip := take (Z.to_nat (X + 1)) ds) in *.
      set (fr := rstrip_zeros (drop (Z.to_nat (X + 1)) ds)) in *.
      exists (dec ip * 10 ^ Z.of_nat (length fr) + dec fr), (0 - Z.of_nat (length fr)),
             (Z.of_nat (length ds - Z.to_nat (X + 1)) - Z.of_nat (length fr)).
      split; [|split; [lia|split; [now rewrite Hv|rewrite Hlen; lia]]].
      apply (Hout ip fr None 0); try assumption; [reflexivity|].
      apply split_at_absent. now apply with_fraction_no_e.
    + (* zeros after the point *)
      destruct (rstrip_zeros_value ds Hds) as (Hfr & Hl & Hv).
      set (fr := rstrip_zeros ds) in *.
      set (zs := List.repeat (chr 48) (Z.to_nat (- X - 1))).
      assert (Hzs : all_zeros zs = true).
      { subst zs. induction (Z.to_nat (- X - 1)); [reflexivity|exact IHn]. }
      assert (Hfrne : fr <> []).
      { intros E. rewrite E in Hv. unfold dec at 2 in Hv. simpl in Hv. lia. }
      assert (Hbody : py "0." ++ zs ++ fr = with_fraction (py "0") (zs ++ fr)).
      { unfold with_fraction. destruct (zs ++ fr) eqn:E; [|reflexivity].
        apply app_eq_nil in E as [_ E]. done. }
      rewrite Hbody.
      exists (dec fr), (0 - Z.of_nat (length (zs ++ fr))),
             (Z.of_nat (length ds) - Z.of_nat (length fr)).
      assert (Hzf : forallb is_digit (zs ++ fr) = true)
        by (rewrite forallb_app, (zeros_digits zs Hzs), Hfr; reflexivity).
      assert (E : dec (py "0") * 10 ^ Z.of_nat (length (zs ++ fr)) + dec (zs ++ fr) = dec fr).
      { rewrite (dec_app zs fr), (dec_zeros zs Hzs). change (dec (py "0")) with 0. lia. }
      split; [|split; [lia|split; [lia|]]].
      * rewrite <- E. apply (Hout (py "0") (zs ++ fr) None 0); try done.
        apply split_at_absent. now apply with_fraction_no_e.
      * rewrite length_app. subst zs. rewrite repeat_length, Hlen. lia.
Qed.

Lemma p10_pos (k : Z) : (0 < 10 ^ k)%Q.
Proof. apply Qpower_0_lt. reflexivity. Qed.

Lemma p10_add (a b : Z) : (10 ^ (a + b) == 10 ^ a * 10 ^ b)%Q.
Proof. apply Qpower_plus. discriminate. Qed.

Lemma p10_inject (n : Z) : 0 <= n -> (inject_Z (10 ^ n) == 10 ^ n)%Q.
Proof. intros H. now rewrite Zpower_Qpower. Qed.

Lemma p10_inv (a : Z) : (10 ^ a * 10 ^ (- a) == 1)%Q.
Proof. rewrite <- p10_add, Z.add_opp_diag_r. reflexivity. Qed.

Lemma inject_Z_pos (n : Z) : 0 < n -> (0 < inject_Z n)%Q.
Proof. intros H. change 0%Q with (inject_Z 0). now rewrite <- Zlt_Qlt. Qed.

(** The quotient [ten_digits] rounds is [num/den] moved by [9 - X] places. *)
Lemma scaled_value (num den X : Z) :
  0 < den ->
  let '(n', d') := scaled num den X in
  0 < d' -> (inject_Z n' / inject_Z d' == inject_Z num / inject_Z den * 10 ^ (9 - X))%Q.
Proof.
  intros Hd. unfold scaled. pose proof (inject_Z_pos den Hd) as Hdq.
  destruct (Z.leb_spec X 9) as [H|H]; intros Hd'.
  - rewrite inject_Z_mult, p10_inject by lia. field. lra.
  - rewrite inject_Z_mult, p10_inject by lia.
    replace (9 - X) with (- (X - 9)) by lia. rewrite Qpower_opp.
    pose proof (p10_pos (X - 9)). field. split; lra.
Qed.

Lemma Zle_Q (a b : Z) : a <= b -> (inject_Z a <= inject_Z b)%Q.
Proof. intros H. now rewrite <- Zle_Qle. Qed.

Lemma Zlt_Q (a b : Z) : a < b -> (inject_Z a < inject_Z b)%Q.
Proof. intros H. now rewrite <- Zlt_Qlt. Qed.

(** From the integers to the rationals: a quotient between two bounds,
    and half a unit from [r]. *)
Lemma quotient_facts (n d r : Z) :
  0 < d -> 10 ^ 9 * d <= n < 10 ^ 10 * d -> Z.abs (2 * n - 2 * r * d) <= d ->
  let w := (inject_Z n / inject_Z d)%Q in
  (10 ^ 9 <= w)%Q /\ (w < 10 ^ 10)%Q /\ (Qabs (w - inject_Z r) <= 1 # 2)%Q.
Proof.
  intros Hd [H1 H2] H3 w. pose proof (inject_Z_pos d Hd) as Hdq.
  assert (E9 : (inject_Z (10 ^ 9) == 10 ^ 9)%Q) by (apply p10_inject; lia).
  assert (E10 : (inject_Z (10 ^ 10) == 10 ^ 10)%Q) by (apply p10_inject; lia).
  apply Zle_Q in H1. apply Zlt_Q in H2. rewrite inject_Z_mult in H1, H2.
  rewrite E9 in H1. rewrite E10 in H2.
  assert (H4 : 2 * n - 2 * r * d <= d) by lia.
  assert (H5 : - d <= 2 * n - 2 * r * d) by lia.
  apply Zle_Q in H4, H5.
  rewrite inject_Z_opp in H5.
  unfold Z.sub in H4, H5. rewrite inject_Z_plus, inject_Z_opp, !inject_Z_mult in H4, H5.
  change (inject_Z 2) with 2%Q in *.
  subst w. split; [|split].
  - apply Qle_shift_div_l; assumption.
  - apply Qlt_shift_div_r; assumption.
  - apply Qabs_Qle_condition. split.
    + apply (Qplus_le_l _ _ (inject_Z r)). ring_simplify.
      apply Qle_shift_div_l; [assumption|]. lra.
    + apply (Qplus_le_l _ _ (inject_Z r)). ring_simplify.
      apply Qle_shift_div_r; [assumption|]. lra.
Qed.

Lemma float_quotient (s : bool) (m : positive) (e : Z) :
  let num := if 0 <=? e then Z.pos m * 2 ^ e else Z.pos m in
  let den := if 0 <=? e then 1 else 2 ^ (- e) in
  0 < num /\ 0 < den
  /\ (float_value (S754_finite s m e)
      == (if s then -1 else 1) * (inject_Z num / inject_Z den))%Q.
Proof.
  intros num den. subst num den. simpl float_value.
  destruct (Z.leb_spec 0 e) as [He|He].
  - assert (0 < 2 ^ e) by (apply Z.pow_pos_nonneg; lia).
    split; [lia|split; [lia|]].
    rewrite inject_Z_mult, (Zpower_Qpower 2 e He).
    change (inject_Z 2) with 2%Q. change (inject_Z 1) with 1%Q.
    destruct s.
    + change (inject_Z (Z.neg m)) with (- inject_Z (Z.pos m))%Q. field.
    + field.
  - assert (0 < 2 ^ (- e)) by (apply Z.pow_pos_nonneg; lia).
    split; [lia|split; [lia|]].
    rewrite (Zpower_Qpower 2 (- e)) by lia. change (inject_Z 2) with 2%Q.
    rewrite Qpower_opp.
    assert (Hp : (0 < 2 ^ e)%Q) by (apply Qpower_0_lt; reflexivity).
    destruct s.
    + change (inject_Z (Z.neg m)) with (- inject_Z (Z.pos m))%Q. field. lra.
    + field. lra.
Qed.

(** [format_10g] writes a finite float, zero apart, with ten significant
    digits. *)
Lemma format_10g_ten_digits (s : bool) (m : positive) (e : Z) :
  ten_significant_digits (S754_finite s m e) (format_10g (S754_finite s m e)).
Proof.
  destruct (float_quotient s m e) as (Hn & Hd & Hv).
  set (num := if 0 <=? e then Z.pos m * 2 ^ e else Z.pos m) in *.
  set (den := if 0 <=? e then 1 else 2 ^ (- e)) in *.
  set (V := (inject_Z num / inject_Z den)%Q) in *.
  set (X0 := decimal_exponent num den).
  pose proof (decimal_exponent_ok num den Hn Hd) as Hx. fold X0 in Hx.
  pose proof (scaled_range num den X0 Hn Hd Hx) as Hr.
  pose proof (scaled_value num den X0 Hd) as Hs.
  pose proof (ten_digits_ok num den Hn Hd) as Ht. cbv zeta in Ht. fold X0 in Ht.
  destruct (scaled num den X0) as [n' d'].
  destruct Hr as [Hd' Hr]. specialize (Hs Hd'). fold V in Hs.
  destruct Ht as (r & Hr9 & Habs & Hten).
  destruct (quotient_facts n' d' r Hd' Hr Habs) as (Hw1 & Hw2 & Hw3).
  set (W := (inject_Z n' / inject_Z d')%Q) in *.
  (* the digits and the exponent that are written *)
  set (d := if r =? 10 ^ 10 then 10 ^ 9 else r).
  set (X := if r =? 10 ^ 10 then X0 + 1 else X0).
  assert (Hten' : ten_digits num den = (d, X)) by (subst d X; now destruct (r =? 10 ^ 10)).
  assert (Hd9 : 10 ^ 9 <= d < 10 ^ 10).
  { subst d. destruct (Z.eqb_spec r (10 ^ 10)); lia. }
  destruct (format_10g_reads s m e d X Hten' Hd9) as (c & k & t & Hread & Ht0 & Hc & Hk).
  assert (Hcpos : 0 < c <= d).
  { pose proof (pow10_pos t Ht0). nia. }
  (* the number that is written *)
  assert (Hdv : (decimal_value c k == inject_Z r * 10 ^ (X0 - 9))%Q).
  { unfold decimal_value. subst k.
    replace (X - 9 + t) with (t + (X - 9)) by lia.
    rewrite p10_add, <- (p10_inject t Ht0), Qmult_assoc, <- inject_Z_mult, Hc.
    subst d X. destruct (Z.eqb_spec r (10 ^ 10)) as [->|_]; [|reflexivity].
    replace (X0 + 1 - 9) with (1 + (X0 - 9)) by lia. rewrite p10_add.
    change (inject_Z (10 ^ 9)) with (1000000000 # 1)%Q.
    change (inject_Z (10 ^ 10)) with (10000000000 # 1)%Q.
    change (10 ^ 1)%Q with (10 # 1)%Q. ring. }
  pose proof (p10_pos (X0 - 9)) as Hb.
  pose proof (p10_inv (X0 - 9)) as Hab.
  replace (- (X0 - 9)) with (9 - X0) in Hab by lia.
  set (a := (10 ^ (9 - X0))%Q) in *. set (b := (10 ^ (X0 - 9))%Q) in *.
  assert (HV : (V == W * b)%Q).
  { rewrite Hs. rewrite <- Qmult_assoc, (Qmult_comm a b), Hab. ring. }
  assert (E9 : (10 ^ X0 == 10 ^ 9 * b)%Q)
    by (subst b; rewrite <- p10_add; now replace (9 + (X0 - 9)) with X0 by lia).
  assert (E10 : (10 ^ (X0 + 1) == 10 ^ 10 * b)%Q)
    by (subst b; rewrite <- p10_add; now replace (10 + (X0 - 9)) with (X0 + 1) by lia).
  assert (HVpos : (0 < V)%Q).
  { rewrite HV. apply Qmult_lt_0_compat; [|exact Hb].
    apply Qlt_le_trans with (10 ^ 9)%Q; [apply p10_pos|exact Hw1]. }
  assert (Hrange : (10 ^ X0 <= V < 10 ^ (X0 + 1))%Q).
  { rewrite E9, E10, HV. split.
    - apply Qmult_le_compat_r; [exact Hw1|now apply Qlt_le_weak].
    - apply Qmult_lt_compat_r; assumption. }
  assert (Herr : (Qabs (V - decimal_value c k) <= (1 # 2) * b)%Q).
  { rewrite Hdv, HV.
    assert (E : (W * b - inject_Z r * b == (W - inject_Z r) * b)%Q) by ring.
    rewrite E, Qabs_Qmult, (Qabs_pos b) by now apply Qlt_le_weak.
    apply Qmult_le_compat_r; [exact Hw3|now apply Qlt_le_weak]. }
  exists (if s then - c else c), k, X0.
  split; [exact Hread|split; [destruct s; lia|]].
  destruct s.
  - assert (Hneg : (float_value (S754_finite true m e) == - V)%Q) by (rewrite Hv; ring).
    assert (Hdn : (decimal_value (- c) k == - decimal_value c k)%Q)
      by (unfold decimal_value; rewrite inject_Z_opp; ring).
    rewrite Hneg, Hdn, Qabs_opp, (Qabs_pos V) by now apply Qlt_le_weak.
    split; [exact Hrange|].
    assert (E : (- V - - decimal_value c k == - (V - decimal_value c k))%Q) by ring.
    now rewrite E, Qabs_opp.
  - assert (Hpos : (float_value (S754_finite false m e) == V)%Q) by (rewrite Hv; ring).
    rewrite Hpos, (Qabs_pos V) by now apply Qlt_le_weak.
    split; [exact Hrange|exact Herr].
Qed.

(** [str] writes an integer out. *)
Lemma str_of_int_plain (n : Z) : plain_integer n (str_of_int n).
Proof.
  unfold plain_integer, str_of_int. exists (digits (Z.abs n)). split; [|split].
  - destruct (Z.ltb_spec n 0); simpl app; do 2 f_equal; lia.
  - rewrite read_nat_digits; [|apply digits_nonempty|apply digits_all].
    f_equal. apply dec_digits. lia.
  - destruct (Z.eq_dec n 0) as [->|Hn]; [vm_compute; discriminate|].
    pose proof (digits_bounds (Z.abs n) ltac:(lia)). lia.
Qed.

(** For a float that is an integer, [int] returns the number it stands for. *)
Lemma integral_value (v : float) (n : Z) :
  py_int v = Ret n -> integral v -> (float_value v == inject_Z n)%Q.
Proof.
  destruct v as [s|s| |s m e]; simpl py_int; try discriminate.
  - intros [= <-] _. reflexivity.
  - intros [= <-] Hi. destruct (float_quotient s m e) as (Hn & Hd & ->).
    simpl in Hi. destruct (Z.leb_spec 0 e) as [He|He].
    + change (inject_Z 1) with 1%Q. destruct s; [rewrite inject_Z_opp|]; field.
    + destruct Hi as [Hi|[q Hq]]; [lia|].
      assert (Hp : (0 < inject_Z (2 ^ (- e)))%Q) by now apply inject_Z_pos.
      rewrite Hq, Z.div_mul by lia. rewrite inject_Z_mult.
      destruct s; [rewrite inject_Z_opp|]; field; lra.
Qed.

(** The floats that [integral] holds of are those that stand for an integer. *)
Lemma integral_iff (v : float) :
  finite v -> integral v <-> exists n, (float_value v == inject_Z n)%Q.
Proof.
  destruct v as [s|s| |s m e]; try done; intros _.
  - split; [now exists 0|done].
  - split.
    + intros Hi. destruct (small_is_finite (S754_finite s m e) (S754_infinity false))
        as [n Hn]; [now destruct s|].
      exists n. now apply integral_value.
    + intros [n Hn]. simpl. destruct (Z.leb_spec 0 e) as [He|He]; [now left|right].
      destruct (float_quotient s m e) as (_ & Hd & Hq). rewrite Hq in Hn. clear Hq.
      destruct (Z.leb_spec 0 e) as [|_]; [lia|].
      assert (Hp : (0 < inject_Z (2 ^ (- e)))%Q) by now apply inject_Z_pos.
      exists (if s then - n else n). apply inject_Z_injective.
      rewrite inject_Z_mult.
      assert (E : (inject_Z (Z.pos m)
                   == (if s then -1 else 1)
                      * ((if s then -1 else 1) * (inject_Z (Z.pos m) / inject_Z (2 ^ (- e))))
                      * inject_Z (2 ^ (- e)))%Q) by (destruct s; field; lra).
      rewrite E, Hn. destruct s; [rewrite inject_Z_opp|]; ring.
Qed.

(** C8. For a finite result [v]: below [1e-10] in magnitude it is shown as
    [0]; otherwise, below [1e4] in magnitude and an integer, as that integer
    written out; otherwise with ten significant digits.  A float is an
    integer when the number it stands for is one.  The two bounds are the
    floats of [1e4], which is [10^4], and of [1e-10], the float nearest to
    [10^-10].  [4/2] is shown as [2]. *)
Theorem C8_format_result :
  (forall v : float, finite v ->
     (flt (fabs v) c_1e_10 = true -> _format_result v = Ret (py "0"))
     /\ (flt (fabs v) c_1e_10 = false -> flt (fabs v) c_1e4 = true -> integral v ->
         exists n, py_int v = Ret n /\ _format_result v = Ret (str_of_int n)
                   /\ (float_value v == inject_Z n)%Q
                   /\ plain_integer n (str_of_int n))
     /\ (flt (fabs v) c_1e_10 = false -> flt (fabs v) c_1e4 = false \/ ~ integral v ->
         _format_result v = Ret (format_10g v)
         /\ ten_significant_digits v (format_10g v))
     /\ (integral v <-> exists n, (float_value v == inject_Z n)%Q))
  /\ (float_value c_1e4 == 10 ^ 4)%Q
  /\ (Qabs (float_value c_1e_10 - 10 ^ (-10)) <= 1 # 2 ^ 87)%Q
  /\ (evaluate (py "4/2") new_engine).1 = Ret (mkResult (py "4/2") (py "2")).
Proof.
  split; [|split; [run_python|split; [vm_compute; discriminate|run_python]]].
  intros v Hfin. unfold _format_result. split; [|split; [|split; [|now apply integral_iff]]].
  - intros ->. run_python.
  - intros -> H4 Hi. rewrite H4.
    destruct (small_is_finite _ _ H4) as [n Hn]. exists n. split; [done|].
    split; [|split; [now apply integral_value|apply str_of_int_plain]].
    rewrite Hn; simpl. now rewrite (proj2 (eq_int_iff_integral v n Hn) Hi).
  - intros H10 H. split.
    + rewrite H10. destruct H as [H4|Hi]; [now rewrite H4|].
      destruct (flt (fabs v) c_1e4) eqn:H4; [|done].
      destruct (small_is_finite _ _ H4) as [n Hn]. rewrite Hn; simpl.
      destruct (float_eq_int v n) eqn:Hq; [|done].
      now apply (eq_int_iff_integral v n Hn) in Hq.
    + destruct v as [s|s| |s m e]; try done; try (destruct s; discriminate).
      apply format_10g_ten_digits.
Qed.

Lemma C8_witness :
  _format_result (float_of_Z 2) = Ret (py "2")
  /\ _format_result (fdiv (float_of_Z 1) (float_of_Z 3)) = Ret (py "0.3333333333")
  /\ ten_significant_digits (fdiv (float_of_Z 1) (float_of_Z 3)) (py "0.3333333333")
  /\ _format_result (fdiv (float_of_Z (-1)) (float_of_Z (10 ^ 11))) = Ret (py "0").
Proof.
  pose proof (proj1 C8_format_result) as H. split; [|split; [|split]].
  - destruct (H (float_of_Z 2) I) as (_ & H2 & _).
    assert (Hi : integral (float_of_Z 2)) by (right; now exists 2).
    destruct H2 as (n & Hn & Hf & _); [run_python|run_python|exact Hi|].
    vm_compute in Hn. injection Hn as <-. exact Hf.
  - destruct (H (fdiv (float_of_Z 1) (float_of_Z 3)) I) as (_ & _ & H3 & _).
    destruct H3 as [H3 _]; [run_python| |rewrite H3; run_python].
    right. intros [Hi|Hd]; [apply Z.leb_le in Hi; vm_compute in Hi; discriminate|].
    apply Z.mod_divide in Hd; [vm_compute in Hd; discriminate|done].
  - destruct (H (fdiv (float_of_Z 1) (float_of_Z 3)) I) as (_ & _ & H3 & _).
    destruct H3 as [_ H3]; [run_python| |exact H3].
    right. intros [Hi|Hd]; [apply Z.leb_le in Hi; vm_compute in Hi; discriminate|].
    apply Z.mod_divide in Hd; [vm_compute in Hd; discriminate|done].
  - destruct (H (fdiv (float_of_Z (-1)) (float_of_Z (10 ^ 11))) I) as (H1 & _).
    apply H1. run_python.
Defined.
